(** * Interactive voice message: menu, prompts and webhooks

    A shallow embedding of [app.py].  The TwiML documents the application
    builds are kept as trees; exceptions are values of an error monad; the
    mutable [VoiceResponse] is passed explicitly from one statement to the
    next. *)

From stdpp Require Import base strings list option gmap.
From Stdlib Require Import ZArith Ascii String.

Local Open Scope string_scope.
Local Open Scope list_scope.

(* String concatenation unfolds on a literal first argument. *)
#[local] Arguments String.append !s1 s2 : simpl nomatch.

(** ** Exceptions and results *)

(** The exceptions the application can raise through the libraries it
    calls. *)
Inductive exn : Type :=
| KeyError (key : string)             (* dict lookup, [mapping[named]] *)
| ValueError                          (* string.Template: invalid placeholder *)
| BadRequestKeyError (key : string)   (* werkzeug: [request.form[key]] *)
| AttributeError (attr : string)      (* [getattr] *)
| BuildError (endpoint : string)      (* [url_for] on an unknown endpoint *)
| TypeError (msg : string)            (* a call with clashing arguments *)
| TwilioException (msg : string).     (* the telephony provider *)

Inductive result (A : Type) : Type :=
| Ok (a : A)
| Err (e : exn).
Arguments Ok {A} a.
Arguments Err {A} e.

Declare Scope result_scope.
Delimit Scope result_scope with result.
Notation "x <- c ;; k" :=
  (match c with Ok x => k | Err e => Err e end)
  (at level 60, c at next level, right associativity) : result_scope.
Local Open Scope result_scope.

Definition result_map {A B} (f : A -> B) (r : result A) : result B :=
  x <- r ;; Ok (f x).

(** [d[key]] on a mapping given by its lookup function. *)
Definition getitem {V} (mapping : string -> option V) (key : string) : result V :=
  match mapping key with
  | Some v => Ok v
  | None => Err (KeyError key)
  end.

(** ** [string.Template]

    [render_template] hands its argument to [Template(...).substitute].
    The class is Python's.  Its pattern is a delimiter followed by one of
    four alternatives, tried in this order: [escaped] (a second delimiter),
    [named] (an identifier), [braced] (an identifier between braces) and
    [invalid] (the empty match).  An identifier is a letter or underscore
    followed by letters, digits and underscores, ASCII only.  [re.sub]
    applies the [convert] callback to the matches from left to right.
    Strings are byte strings here (UTF-8): the delimiter and the identifier
    characters are ASCII, so bytes above 127 are ordinary text. *)
Module Template.

Definition delimiter : ascii := "$"%char.

Definition in_range (lo hi : nat) (c : ascii) : bool :=
  let n := nat_of_ascii c in Nat.leb lo n && Nat.leb n hi.

(** [_a-z] under IGNORECASE and the ASCII flag. *)
Definition is_id_start (c : ascii) : bool :=
  Ascii.eqb c "_"%char || in_range 97 122 c || in_range 65 90 c.

(** [_a-z0-9] under the same flags. *)
Definition is_id_char (c : ascii) : bool :=
  is_id_start c || in_range 48 57 c.

Fixpoint take_while (p : ascii -> bool) (s : string) : string :=
  match s with
  | String c r => if p c then String c (take_while p r) else ""
  | "" => ""
  end.

Fixpoint drop_string (n : nat) (s : string) : string :=
  match n, s with
  | S k, String _ r => drop_string k r
  | _, _ => s
  end.

(** The greedy match of [idpattern] at the head of [s]. *)
Definition identifier (s : string) : option string :=
  match s with
  | String c r =>
      if is_id_start c then Some (String c (take_while is_id_char r)) else None
  | "" => None
  end.

(** Which alternative of the pattern matches after a delimiter.  The
    alternatives are tried in the order they are written. *)
Inductive placeholder : Type :=
| Escaped
| Named (name : string)
| Braced (name : string)
| Invalid.

Definition braced_identifier (r : string) : option string :=
  match r with
  | String "{"%char r' =>
      match identifier r' with
      | Some n =>
          match drop_string (String.length n) r' with
          | String "}"%char _ => Some n
          | _ => None
          end
      | None => None
      end
  | _ => None
  end.

Definition match_after_delimiter (r : string) : placeholder :=
  match r with
  | String "$"%char _ => Escaped
  | _ =>
      match identifier r with
      | Some n => Named n
      | None =>
          match braced_identifier r with
          | Some n => Braced n
          | None => Invalid
          end
      end
  end.

(** [pattern.sub(convert, template)].  [skip] is the number of characters
    of the match in progress that are still to be passed over; text
    outside the matches is copied. *)
Fixpoint sub (mapping : string -> option string) (skip : nat) (s : string)
  : result string :=
  match s with
  | "" => Ok ""
  | String c r =>
      match skip with
      | S k => sub mapping k r
      | O =>
          if Ascii.eqb c delimiter then
            match match_after_delimiter r with
            | Escaped =>
                out <- sub mapping 1 r ;; Ok (String delimiter out)
            | Named n =>
                v <- getitem mapping n ;;
                out <- sub mapping (String.length n) r ;; Ok (v +:+ out)
            | Braced n =>
                v <- getitem mapping n ;;
                out <- sub mapping (String.length n + 2) r ;; Ok (v +:+ out)
            | Invalid => Err ValueError
            end
          else out <- sub mapping 0 r ;; Ok (String c out)
      end
  end.

Definition substitute (mapping : string -> option string) (template : string)
  : result string :=
  sub mapping 0 template.

(** *** The template read as a sequence of pieces

    The same scan, recording what each match is.  [source] gives back the
    text a piece was read from, [expand] what [convert] puts in its
    place. *)
Inductive piece : Type :=
| Text (c : ascii)
| Esc
| Ref (braced : bool) (name : string)
| Bad.

Fixpoint pieces_from (skip : nat) (s : string) : list piece :=
  match s with
  | "" => []
  | String c r =>
      match skip with
      | S k => pieces_from k r
      | O =>
          if Ascii.eqb c delimiter then
            match match_after_delimiter r with
            | Escaped => Esc :: pieces_from 1 r
            | Named n => Ref false n :: pieces_from (String.length n) r
            | Braced n => Ref true n :: pieces_from (String.length n + 2) r
            | Invalid => Bad :: pieces_from 0 r
            end
          else Text c :: pieces_from 0 r
      end
  end.

Definition pieces (template : string) : list piece := pieces_from 0 template.

Definition source (p : piece) : string :=
  match p with
  | Text c => String c ""
  | Esc => "$$"
  | Ref false n => "$" +:+ n
  | Ref true n => "${" +:+ n +:+ "}"
  | Bad => "$"
  end.

Definition expand (mapping : string -> option string) (p : piece) : result string :=
  match p with
  | Text c => Ok (String c "")
  | Esc => Ok "$"
  | Ref _ n => getitem mapping n
  | Bad => Err ValueError
  end.

Fixpoint expand_all (mapping : string -> option string) (ps : list piece)
  : result string :=
  match ps with
  | [] => Ok ""
  | p :: ps' =>
      v <- expand mapping p ;;
      out <- expand_all mapping ps' ;; Ok (v +:+ out)
  end.

Fixpoint concat_strings (l : list string) : string :=
  match l with
  | [] => ""
  | s :: l' => s +:+ concat_strings l'
  end.

(** The names a template refers to, one per occurrence, in order. *)
Fixpoint references (ps : list piece) : list string :=
  match ps with
  | [] => []
  | Ref _ n :: ps' => n :: references ps'
  | _ :: ps' => references ps'
  end.

(** No delimiter is left without a well-formed placeholder. *)
Fixpoint well_formed (ps : list piece) : bool :=
  match ps with
  | [] => true
  | Bad :: _ => false
  | _ :: ps' => well_formed ps'
  end.

(** What a piece becomes when every name has a value. *)
Definition replacement (mapping : string -> option string) (p : piece) : string :=
  match p with
  | Text c => String c ""
  | Esc => "$"
  | Ref _ n => default "" (mapping n)
  | Bad => ""
  end.

(** The text contains no delimiter at all. *)
Fixpoint no_delimiter (s : string) : bool :=
  match s with
  | "" => true
  | String c r => negb (Ascii.eqb c delimiter) && no_delimiter r
  end.

End Template.

(** ** Types *)

Record IVMConfig : Type := {
  twilio_account_sid : string;
  twilio_auth_token : string;
  use_ngrok : bool;
  ngrok_auth_token : option string;
  to_number : string;
  from_number : string;
  machine_voice : string;
  human_voice : string;
  variables : gmap string string
}.

(** What [url_for] answers in one request context: from the endpoint and
    the [_external] flag to the address, or to the exception raised. *)
Definition UrlAdapter : Type := string -> bool -> result string.

(** [current_app]: the keys of its config the code reads, and its method
    [test_request_context].  [test_request_context cfg base_url] stands for
    [url_for] called inside [current_app.test_request_context(base_url=base_url)];
    how Flask and werkzeug turn the base URL and the routes into an address,
    and which base URLs they refuse, is theirs and is not expanded here. *)
Record AppConfig : Type := {
  BASE_URL : string;
  IVM : IVMConfig;
  test_request_context : string -> UrlAdapter
}.

(** Common actions to take after handling user input. *)
Inductive CallbackSideEffect : Type :=
| NOOP
| RETURN_TO_MENU
| HANGUP.

(** ** TwiML documents

    A [twilio.twiml.TwiML] object: the element name, the attributes (keyword
    arguments that are not None, under their Python names), the text value
    and the nested verbs, each a string or a TwiML object. *)
Inductive AttrValue : Type :=
| AStr (s : string)
| AInt (n : Z)
| ABool (b : bool).

#[local] Set Warnings "-register-all".
Inductive TwiML : Type :=
  MkTwiML {
    name : string;
    attrs : gmap string AttrValue;
    value : option string;
    verbs : list (string + TwiML)
  }.

(** [TwiML.nest] and [TwiML.append] both push onto [verbs]. *)
Definition nest (self : TwiML) (verb : string + TwiML) : TwiML :=
  MkTwiML (name self) (attrs self) (value self) (verbs self ++ [verb]).

Definition append (self : TwiML) (verb : string + TwiML) : TwiML :=
  nest self verb.

Definition VoiceResponse : TwiML := MkTwiML "Response" ∅ None [].
Definition Say (kwargs : gmap string AttrValue) : TwiML := MkTwiML "Say" kwargs None [].
Definition Pause (length : Z) : TwiML := MkTwiML "Pause" {[ "length" := AInt length ]} None [].
Definition Hangup : TwiML := MkTwiML "Hangup" ∅ None [].
Definition Gather (kwargs : gmap string AttrValue) : TwiML := MkTwiML "Gather" kwargs None [].
Definition RecordVerb (kwargs : gmap string AttrValue) : TwiML := MkTwiML "Record" kwargs None [].

(** [SsmlSayAs(words, **kwargs)]: the words are the element's text. *)
Definition SsmlSayAs (words : string) (kwargs : gmap string AttrValue) : TwiML :=
  MkTwiML "say-as" kwargs (if String.eqb words "" then None else Some words) [].

(** The [VoiceResponse] methods the application calls; each nests a verb. *)
Definition pause (response : TwiML) (length : Z) : TwiML :=
  nest response (inr (Pause length)).

Definition hangup (response : TwiML) : TwiML :=
  nest response (inr Hangup).

Definition record (response : TwiML) (kwargs : gmap string AttrValue) : TwiML :=
  nest response (inr (RecordVerb kwargs)).

(** [response.gather(...)] nests a [Gather] and returns it: the object bound
    by [as g] is the last verb of [response]. *)
Definition gather (response : TwiML) (kwargs : gmap string AttrValue) : TwiML :=
  nest response (inr (Gather kwargs)).

(** A mutation of that last verb through its alias. *)
Definition on_last_verb (f : TwiML -> TwiML) (response : TwiML) : TwiML :=
  match last (verbs response) with
  | Some (inr g) =>
      MkTwiML (name response) (attrs response) (value response)
              (<[pred (List.length (verbs response)) := inr (f g)]> (verbs response))
  | _ => response
  end.

(** [Say.say_as(words, **kwargs)]. *)
Definition say_as (say : TwiML) (words : string) (kwargs : gmap string AttrValue) : TwiML :=
  nest say (inr (SsmlSayAs words kwargs)).

(** What [say] accepts as a child. *)
Definition LazyTwiMLBuilder : Type := TwiML -> result TwiML.

Inductive TwiMLElement : Type :=
| EStr (s : string)
| EBuilder (f : LazyTwiMLBuilder)
| ETwiML (t : TwiML).

(** [Union[TwiMLElement, List[TwiMLElement]]]. *)
Inductive Children : Type :=
| Single (e : TwiMLElement)
| Several (l : list TwiMLElement).

(** A zero-argument function returning a [Say], and a callback action: both
    run inside the application context, which is their first argument
    here. *)
Definition Message : Type := AppConfig -> result TwiML.
Definition CallbackAction : Type :=
  AppConfig -> TwiML -> result (TwiML * CallbackSideEffect).

(** A choice in the interactive menu. *)
Record MenuItem : Type := {
  prompt : string;
  callback_action : CallbackAction
}.

(** A Python dict whose iteration order matters: the items in insertion
    order, keys distinct. *)
Fixpoint dict_get {V : Type} (d : list (string * V)) (key : string) : option V :=
  match d with
  | [] => None
  | (k, v) :: d' => if String.eqb k key then Some v else dict_get d' key
  end.

(** ** Flask: requests, URLs, responses *)

(** [request.form] is a multi-dict: the pairs in the order they were sent. *)
Record Request : Type := {
  form : list (string * string);
  data : string
}.

(** [request.form[key]]: the first value, or a 400. *)
Definition form_getitem (req : Request) (key : string) : result string :=
  match dict_get (form req) key with
  | Some v => Ok v
  | None => Err (BadRequestKeyError key)
  end.

(** The rules of the blueprint [voice_message] (prefix "/"). *)
Definition url_map : list (string * string) :=
  [ ("voice_message.handle_index_page", "/");
    ("voice_message.start_call", "/calls");
    ("voice_message.handle_menu_callback", "/menu-callback");
    ("voice_message.handle_voice_reply_callback", "/voice-reply-callback");
    ("voice_message.handle_transcribe_callback", "/transcribe-callback") ].

(** [url_for(endpoint)] in the request that is being handled, the
    application being served at the root: the rule of the endpoint.  An
    endpoint that starts with a dot is relative to the blueprint of the
    request.  The code asks for no external address in this context. *)
Definition url_for (endpoint : string) : result string :=
  let endpoint :=
    match endpoint with
    | String "."%char r => "voice_message." +:+ r
    | _ => endpoint
    end in
  match dict_get url_map endpoint with
  | Some rule => Ok rule
  | None => Err (BuildError endpoint)
  end.

(** Text that a view returns.  The serialisation of a document by the
    Twilio library is not expanded: [Str doc] is [str(doc)]. *)
Inductive text : Type :=
| Lit (s : string)
| Str (doc : TwiML)
| Cat (a b : text).

Record Response : Type := {
  response_data : text;
  content_type : string;
  status_code : Z
}.

(** A view returns a string or a response object. *)
Inductive ViewReturn : Type :=
| RvStr (s : text)
| RvResponse (r : Response).

(** [Flask.make_response] on what the view returned. *)
Definition make_response (rv : ViewReturn) : Response :=
  match rv with
  | RvStr s => {| response_data := s; content_type := "text/html; charset=utf-8"; status_code := 200 |}
  | RvResponse r => r
  end.

(** The status the client sees: an HTTP exception carries its code, any
    other exception is an internal server error. *)
Definition http_status (r : result ViewReturn) : Z :=
  match r with
  | Ok rv => status_code (make_response rv)
  | Err (BadRequestKeyError _) => 400
  | Err _ => 500
  end.

(** The provider's client: [client.calls.create(twiml, to, from_)] returns
    the call, of which the code reads the [sid]. *)
Record TwilioClient : Type := {
  calls_create : TwiML -> string -> string -> result string
}.

(** ** TwiML helpers *)

(** If [obj] is a string or something non-iterable, wrap it in a list.  A
    TwiML object and a function are not iterable; a list is returned as it
    is. *)
Definition wrap_in_list (obj : Children) : list TwiMLElement :=
  match obj with
  | Single e => [e]
  | Several l => l
  end.

(** The reducer of [concat_consecutive_strings]: [acc[-1] += elem] when both
    are strings, [acc.append(elem)] otherwise. *)
Definition reducer (acc : list TwiMLElement) (elem : TwiMLElement) : list TwiMLElement :=
  match last acc, elem with
  | Some (EStr s), EStr e => <[pred (List.length acc) := EStr (s +:+ e)]> acc
  | _, _ => acc ++ [elem]
  end.

Definition concat_consecutive_strings (elems : list TwiMLElement) : list TwiMLElement :=
  foldl reducer [] elems.

(** Render the given string as a [string.Template] over the [variables]
    config. *)
Definition render_template (cfg : AppConfig) (template : string) : result string :=
  Template.substitute (fun key => variables (IVM cfg) !! key) template.

(** The loop of [say] over the merged children. *)
Fixpoint say_children (cfg : AppConfig) (twiml : TwiML) (elems : list TwiMLElement)
  : result TwiML :=
  match elems with
  | [] => Ok twiml
  | elem :: elems' =>
      twiml' <- match elem with
                | EStr s =>
                    rendered <- render_template cfg s ;;
                    Ok (append twiml (inl rendered))
                | ETwiML t => Ok (append twiml (inr t))
                | EBuilder f => f twiml
                end ;;
      say_children cfg twiml' elems'
  end.

(** Construct a Say element from the given children. *)
Definition say (cfg : AppConfig) (children : Children) (kwargs : gmap string AttrValue)
  : result TwiML :=
  say_children cfg (Say kwargs) (concat_consecutive_strings (wrap_in_list children)).

(** A keyword that names a positional parameter is a second value for it:
    [messages] clashes in the call of the function itself, [children] in
    the call of [say] it makes. *)
Definition clashing_keyword (kwargs : gmap string AttrValue) : option string :=
  match kwargs !! "messages", kwargs !! "children" with
  | Some _, _ => Some "messages"
  | None, Some _ => Some "children"
  | None, None => None
  end.

(** Construct a Say element with voice set to the [machine_voice] config. *)
Definition say_as_machine (cfg : AppConfig) (messages : Children)
    (kwargs : gmap string AttrValue) : result TwiML :=
  match clashing_keyword kwargs with
  | Some name => Err (TypeError name)
  | None => say cfg messages (<["voice" := AStr (machine_voice (IVM cfg))]> kwargs)
  end.

(** Construct a Say element with voice set to the [human_voice] config. *)
Definition say_as_human (cfg : AppConfig) (messages : Children)
    (kwargs : gmap string AttrValue) : result TwiML :=
  match clashing_keyword kwargs with
  | Some name => Err (TypeError name)
  | None => say cfg messages (<["voice" := AStr (human_voice (IVM cfg))]> kwargs)
  end.

(** Given a VoiceResponse, render it as Flask response. *)
Definition render_twiml (resp : TwiML) : Response :=
  {| response_data := Str resp; content_type := "text/xml"; status_code := 200 |}.

(** A function that, given a Say element, invokes its attribute named
    [say_attr_name].  Of the methods of [Say] only [say_as] is modelled. *)
Definition ssml (say_attr_name : string) (words : string)
    (kwargs : gmap string AttrValue) : LazyTwiMLBuilder :=
  fun say =>
    if String.eqb say_attr_name "say_as" then Ok (say_as say words kwargs)
    else Err (AttributeError say_attr_name).

(** ** Things that the bot can say and do *)

(** Messages that reference config variables. *)
Module DynamicMessages.

Definition intro : Message := fun cfg =>
  say_as_machine cfg
    (Single (EStr "Hello, this is a voice message from $from_name about $subject.")) ∅.

Definition parting : Message := fun cfg =>
  say_as_machine cfg
    (Single (EStr "Thank you. Your reply will be delivered to $from_name. I hope you have a nice day.")) ∅.

Definition main : Message := fun cfg =>
  say_as_human cfg (Single (EStr "$main_message")) ∅.

Definition email_address : Message := fun cfg =>
  email <- render_template cfg "$email" ;;
  say_as_human cfg
    (Several [ EStr "My email address is,";
               EBuilder (ssml "say_as" email {[ "interpret_as" := AStr "spell-out" ]}) ]) ∅.

End DynamicMessages.

(** [enumerate]: the items with their index. *)
Fixpoint enumerate_from {A : Type} (index : nat) (l : list A) : list (nat * A) :=
  match l with
  | [] => []
  | x :: l' => (index, x) :: enumerate_from (S index) l'
  end.

Definition enumerate {A : Type} (l : list A) : list (nat * A) := enumerate_from 0 l.

(** Reusable actions to take (not necessarily in response to user input). *)
Module CompositeActions.

(** The body of the loop over the menu items: one option is appended. *)
Definition add_option (options : list string) (entry : nat * (string * MenuItem))
  : list string :=
  let '(index, (digits, menu_item)) := entry in
  let prefix := if Nat.eqb index 0 then "Please press" else "Press" in
  options ++ [prefix +:+ " " +:+ digits +:+ " " +:+ prompt menu_item +:+ ". "].

Definition say_menu (cfg : AppConfig) (menu : list (string * MenuItem))
    (response : TwiML) (external : bool) : result TwiML :=
  action <- test_request_context cfg (BASE_URL cfg)
              "voice_message.handle_menu_callback" external ;;
  let response :=
    gather response
      (<["num_digits" := AInt 1]>
         (<["action" := AStr action]>
            (<["method" := AStr "POST"]> {[ "timeout" := AInt 120 ]}))) in
  let options := foldl add_option [] (enumerate menu) in
  let options :=
    options ++ [ "Press any other key to repeat the options. ";
                 "Or, please feel free to hang up now. ";
                 "I will wait for 2 minutes before ending the call." ] in
  announcement <- say_as_machine cfg (Several (EStr <$> options)) {[ "loop" := AInt 1 ]} ;;
  let response := on_last_verb (fun g => append g (inr announcement)) response in
  closing <- say_as_machine cfg (Single (EStr "Okay, thank you very much!")) ∅ ;;
  Ok (append response (inr closing)).

End CompositeActions.

(** Functions that take a VoiceResponse, append elements, and return what
    further action to take. *)
Module CallbackActions.

Definition say_message (message : Message) : CallbackAction := fun cfg response =>
  m <- message cfg ;;
  let response := append response (inr m) in
  let response := pause response 1 in
  Ok (response, RETURN_TO_MENU).

Definition say_message_and_hangup (message : Message) : CallbackAction := fun cfg response =>
  m <- message cfg ;;
  let response := append response (inr m) in
  let response := pause response 1 in
  Ok (response, HANGUP).

Definition prompt_voice_reply : CallbackAction := fun cfg response =>
  m <- say_as_machine cfg
         (Single (EStr "Please leave a reply after you hear a beep. Press the pound sign to finish recording.")) ∅ ;;
  let response := append response (inr m) in
  action <- url_for ".handle_voice_reply_callback" ;;
  transcribe_callback <- url_for ".handle_transcribe_callback" ;;
  let response :=
    record response
      (<["action" := AStr action]>
         (<["play_beep" := ABool true]>
            (<["method" := AStr "POST"]>
               (<["max_length" := AInt 120]>
                  {[ "transcribe_callback" := AStr transcribe_callback ]})))) in
  Ok (response, NOOP).

Definition return_to_menu : CallbackAction := fun cfg response =>
  Ok (response, RETURN_TO_MENU).

End CallbackActions.

(** An interactive menu: a mapping from numpad keys to MenuItems. *)
Definition interactive_menu : list (string * MenuItem) :=
  [ ("1", {| prompt := "to play the message again";
             callback_action := CallbackActions.say_message DynamicMessages.main |});
    ("2", {| prompt := "for the sender's email address";
             callback_action := CallbackActions.say_message DynamicMessages.email_address |});
    ("3", {| prompt := "to record a voice message to be sent back";
             callback_action := CallbackActions.prompt_voice_reply |}) ].

(** Invoke the given action and perform any side-effect specified by the
    action. *)
Definition run_callback_action (cfg : AppConfig) (action : CallbackAction)
    (response : TwiML) : result TwiML :=
  r <- action cfg response ;;
  let '(response, side_effect) := r in
  match side_effect with
  | RETURN_TO_MENU => CompositeActions.say_menu cfg interactive_menu response false
  | HANGUP => Ok (hangup response)
  | NOOP => Ok response
  end.

(** ** HTTP routes *)

Definition create_twilio_client (cfg : AppConfig)
    (Client : string -> string -> result TwilioClient) : result TwilioClient :=
  let account_sid := twilio_account_sid (IVM cfg) in
  let auth_token := twilio_auth_token (IVM cfg) in
  Client account_sid auth_token.

Definition newline : string := String (ascii_of_nat 10) "".

(** Send an interactive voice message.  [Client] is the provider's client
    class. *)
Definition start_call (cfg : AppConfig)
    (Client : string -> string -> result TwilioClient) : result ViewReturn :=
  client <- create_twilio_client cfg Client ;;
  let response := VoiceResponse in
  m <- DynamicMessages.intro cfg ;;
  let response := append response (inr m) in
  let response := pause response 1 in
  m <- DynamicMessages.main cfg ;;
  let response := append response (inr m) in
  m <- DynamicMessages.email_address cfg ;;
  let response := append response (inr m) in
  let response := pause response 1 in
  response <- CompositeActions.say_menu cfg interactive_menu response true ;;
  sid <- calls_create client response (to_number (IVM cfg)) (from_number (IVM cfg)) ;;
  Ok (RvStr (Cat (Lit ("Initiated call with SID " +:+ sid
                       +:+ " with the following VoiceResponse:" +:+ newline))
                 (Str response))).

(** The action used when the pressed key is not in the menu. *)
Definition unmapped_key_action : CallbackAction := fun cfg _res =>
  Ok (_res, RETURN_TO_MENU).

(** Invoked when the call recipient presses a numpad key in response to the
    interactive menu. *)
Definition handle_menu_callback (cfg : AppConfig) (request : Request)
  : result ViewReturn :=
  let response := VoiceResponse in
  digits <- form_getitem request "Digits" ;;
  let menu_item := dict_get interactive_menu digits in
  response <- run_callback_action cfg
                (match menu_item with
                 | Some item => callback_action item
                 | None => unmapped_key_action
                 end)
                response ;;
  Ok (RvResponse (render_twiml response)).

(** Invoked when the call recipient finished recording their reply. *)
Definition handle_voice_reply_callback (cfg : AppConfig) (request : Request)
  : result ViewReturn :=
  let response := VoiceResponse in
  let action := CallbackActions.say_message_and_hangup DynamicMessages.parting in
  response <- run_callback_action cfg action response ;;
  Ok (RvResponse (render_twiml response)).

(** Invoked when Twilio finished transcribing the recipient's voice
    recording. *)
Definition handle_transcribe_callback (cfg : AppConfig) (request : Request)
  : result ViewReturn :=
  Ok (RvStr (Lit "")).

(** ** The configuration of the test suite *)

(** The addresses of an application whose base URL is an origin (scheme
    and host, nothing after them), as the one of the tests is: the internal
    form is the rule, the external form the base URL followed by the rule. *)
Definition origin_request_context (base_url : string) : UrlAdapter :=
  fun endpoint external =>
    match dict_get url_map endpoint with
    | Some rule => Ok (if external then base_url +:+ rule else rule)
    | None => Err (BuildError endpoint)
    end.

Definition test_config : AppConfig :=
  {| BASE_URL := "http://localhost:5000";
     test_request_context := origin_request_context;
     IVM := {| twilio_account_sid := "a";
               twilio_auth_token := "b";
               use_ngrok := false;
               ngrok_auth_token := None;
               to_number := "to";
               from_number := "from";
               machine_voice := "Polly.Matthew-Neural";
               human_voice := "Polly.Salli-Neural";
               variables := <["from_name" := "From"]>
                              (<["subject" := "Apple"]>
                                 (<["main_message" := "Apples are red"]>
                                    {[ "email" := "test@example.com" ]})) |} |}.

(** The mocked provider of the test suite: every call is placed. *)
Definition mock_Client : string -> string -> result TwilioClient :=
  fun _ _ => Ok {| calls_create := fun _ _ _ => Ok "140233184318736" |}.

(** ** Expected documents

    The documents the claims describe, written out verb by verb; the
    theorems below compare them with what the functions above build. *)

(** [response] with further verbs at the end. *)
Definition extend (response : TwiML) (vs : list (string + TwiML)) : TwiML :=
  MkTwiML (name response) (attrs response) (value response) (verbs response ++ vs).

(** A [Say] in the given voice whose only child is a text. *)
Definition spoken (voice : string) (words : string) : TwiML :=
  MkTwiML "Say" (<["voice" := AStr voice]> ∅) None [inl words].

(** One option of the menu as it is read aloud. *)
Definition option_phrase (first : bool) (entry : string * MenuItem) : string :=
  (if first then "Please press" else "Press")
    +:+ " " +:+ entry.1 +:+ " " +:+ prompt entry.2 +:+ ". ".

(** The options: the first with "Please press", the others with "Press". *)
Definition menu_options (menu : list (string * MenuItem)) : list string :=
  match menu with
  | [] => []
  | entry :: rest => option_phrase true entry :: (option_phrase false <$> rest)
  end.

Definition menu_trailer : list string :=
  [ "Press any other key to repeat the options. ";
    "Or, please feel free to hang up now. ";
    "I will wait for 2 minutes before ending the call." ].

(** The template of the announcement: options, then trailer. *)
Definition announcement_template (menu : list (string * MenuItem)) : string :=
  Template.concat_strings (menu_options menu ++ menu_trailer).

(** The address of the menu callback that [say_menu] asks for: the one
    [url_for] gives, in the form chosen by [external], in a request context
    made for the base URL of the configuration. *)
Definition menu_callback_url (cfg : AppConfig) (external : bool) : result string :=
  test_request_context cfg (BASE_URL cfg) "voice_message.handle_menu_callback" external.

(** The gather instruction around the announcement, posting to [action],
    and the closing remark after it. *)
Definition menu_verbs (cfg : AppConfig) (action : string) (announcement : string)
  : list (string + TwiML) :=
  [ inr (MkTwiML "Gather"
           (<["num_digits" := AInt 1]>
              (<["action" := AStr action]>
                 (<["method" := AStr "POST"]> {[ "timeout" := AInt 120 ]})))
           None
           [ inr (MkTwiML "Say"
                    (<["voice" := AStr (machine_voice (IVM cfg))]> {[ "loop" := AInt 1 ]})
                    None [inl announcement]) ]);
    inr (spoken (machine_voice (IVM cfg)) "Okay, thank you very much!") ].

(** The announcement of [interactive_menu]. *)
Definition interactive_announcement : string :=
  "Please press 1 to play the message again. Press 2 for the sender's email address. Press 3 to record a voice message to be sent back. Press any other key to repeat the options. Or, please feel free to hang up now. I will wait for 2 minutes before ending the call.".

(** The parting prompt for a sender name, in a given voice, then the pause
    and the hang-up. *)
Definition parting_text (from_name : string) : string :=
  "Thank you. Your reply will be delivered to " +:+ from_name
    +:+ ". I hope you have a nice day.".

Definition voice_reply_verbs (voice from_name : string) : list (string + TwiML) :=
  [ inr (spoken voice (parting_text from_name)); inr (Pause 1); inr Hangup ].

(** The script of the outbound call. *)
Definition intro_text (from_name subject : string) : string :=
  "Hello, this is a voice message from " +:+ from_name +:+ " about " +:+ subject +:+ ".".

Definition email_prompt (voice email : string) : TwiML :=
  MkTwiML "Say" (<["voice" := AStr voice]> ∅) None
    [ inl "My email address is,";
      inr (SsmlSayAs email {[ "interpret_as" := AStr "spell-out" ]}) ].

Definition call_script (cfg : AppConfig) (action : string)
    (from_name subject main_message email : string) : TwiML :=
  extend VoiceResponse
    ([ inr (spoken (machine_voice (IVM cfg)) (intro_text from_name subject));
       inr (Pause 1);
       inr (spoken (human_voice (IVM cfg)) main_message);
       inr (email_prompt (human_voice (IVM cfg)) email);
       inr (Pause 1) ]
     ++ menu_verbs cfg action interactive_announcement).

(** The voice stamped on the first verb of a returned document. *)
Definition first_voice (r : result ViewReturn) : option AttrValue :=
  match r with
  | Ok (RvResponse {| response_data := Str doc |}) =>
      match verbs doc with
      | inr v :: _ => attrs v !! "voice"
      | _ => None
      end
  | _ => None
  end.

(** ** Starting the application

    The last part of [create_app], from the validated configuration on:
    the tunnel for local development.  What comes before it (the layers of
    the Flask configuration and the validation of the [IVM] record) belongs
    to Flask, tomlkit and pydantic and is not modelled. *)

(** What can stop [create_app] in that part. *)
Inductive startup_exn : Type :=
| IndexError                       (* list index out of range *)
| NotInList                        (* the ValueError of [list.index] *)
| PyngrokError (msg : string).     (* the tunnel could not be opened *)

Inductive startup (A : Type) : Type :=
| Started (a : A)
| Crashed (e : startup_exn).
Arguments Started {A} a.
Arguments Crashed {A} e.

(** The port handed to ngrok: an argument of the command line (a string)
    or the number 5000. *)
Inductive Port : Type :=
| PortArgument (s : string)
| PortNumber (n : Z).

(** [x in l] and [l.index(x)] for a list of strings. *)
Fixpoint list_contains (l : list string) (x : string) : bool :=
  match l with
  | [] => false
  | y :: l' => String.eqb y x || list_contains l' x
  end.

Fixpoint list_index (l : list string) (x : string) : option nat :=
  match l with
  | [] => None
  | y :: l' => if String.eqb y x then Some 0 else S <$> list_index l' x
  end.

(** [sys.argv[sys.argv.index("--port") + 1] if "--port" in sys.argv else 5000]. *)
Definition dev_server_port (argv : list string) : startup Port :=
  if list_contains argv "--port" then
    match list_index argv "--port" with
    | Some i =>
        match argv !! (i + 1) with
        | Some port => Started (PortArgument port)
        | None => Crashed IndexError
        end
    | None => Crashed NotInList
    end
  else Started (PortNumber 5000).

(** The keys of [app.config] this part reads and writes. *)
Record FlaskConfig : Type := {
  app_config : AppConfig;
  PREFERRED_URL_SCHEME : option string
}.

(** [ngrok_connect token port] is [ngrok.connect(port, bind_tls=True).public_url]
    after [ngrok.set_auth_token(token)] when a token was set. *)
Definition open_ngrok_tunnel (argv : list string)
    (ngrok_connect : option string -> Port -> startup string)
    (config : FlaskConfig) : startup FlaskConfig :=
  if use_ngrok (IVM (app_config config)) then
    match dev_server_port argv with
    | Crashed e => Crashed e
    | Started port =>
        let token :=
          match ngrok_auth_token (IVM (app_config config)) with
          | Some t => if String.eqb t "" then None else Some t
          | None => None
          end in
        match ngrok_connect token port with
        | Crashed e => Crashed e
        | Started public_url =>
            Started {| app_config :=
                         {| BASE_URL := public_url;
                            IVM := IVM (app_config config);
                            test_request_context :=
                              test_request_context (app_config config) |};
                       PREFERRED_URL_SCHEME := Some "https" |}
        end
    end
  else Started config.

(** A configuration with the tunnel enabled. *)
Definition tunnel_config : FlaskConfig :=
  {| app_config :=
       {| BASE_URL := "http://localhost:5000";
          test_request_context := origin_request_context;
          IVM := {| twilio_account_sid := "a"; twilio_auth_token := "b";
                    use_ngrok := true; ngrok_auth_token := Some "token";
                    to_number := "to"; from_number := "from";
                    machine_voice := "Polly.Matthew-Neural";
                    human_voice := "Polly.Salli-Neural";
                    variables := ∅ |} |};
     PREFERRED_URL_SCHEME := None |}.

(** ** Further notions used in the statements *)

Definition is_str (e : TwiMLElement) : bool :=
  match e with
  | EStr _ => true
  | _ => false
  end.

(** Two strings stand next to each other somewhere in the list. *)
Fixpoint adjacent_strings (l : list TwiMLElement) : bool :=
  match l with
  | x :: l' =>
      match l' with
      | y :: _ => (is_str x && is_str y) || adjacent_strings l'
      | [] => false
      end
  | [] => false
  end.

(** All the text of the string pieces, in order. *)
Fixpoint joined_text (l : list TwiMLElement) : string :=
  match l with
  | [] => ""
  | EStr s :: l' => s +:+ joined_text l'
  | _ :: l' => joined_text l'
  end.

(** The pieces that are not strings, in order. *)
Fixpoint non_strings (l : list TwiMLElement) : list TwiMLElement :=
  match l with
  | [] => []
  | x :: l' => if is_str x then non_strings l' else x :: non_strings l'
  end.

(** A text with every delimiter doubled. *)
Fixpoint escape_delimiters (s : string) : string :=
  match s with
  | "" => ""
  | String c r =>
      if Ascii.eqb c Template.delimiter
      then String c (String c (escape_delimiters r))
      else String c (escape_delimiters r)
  end.

(** The text after an identifier does not start with an identifier
    character. *)
Definition ends_identifier (t : string) : bool :=
  match t with
  | "" => true
  | String c _ => negb (Template.is_id_char c)
  end.

(** What is left of the command line after the first occurrence of [x]. *)
Fixpoint after_first (l : list string) (x : string) : option (list string) :=
  match l with
  | [] => None
  | y :: l' => if String.eqb y x then Some l' else after_first l' x
  end.

(** The keys and prompts of a menu contain no delimiter. *)
Definition plain_menu (menu : list (string * MenuItem)) : bool :=
  forallb (fun entry => Template.no_delimiter entry.1
                        && Template.no_delimiter (prompt entry.2)) menu.

(** The two verbs of the recording prompt. *)
Definition record_verbs (cfg : AppConfig) : list (string + TwiML) :=
  [ inr (spoken (machine_voice (IVM cfg))
           "Please leave a reply after you hear a beep. Press the pound sign to finish recording.");
    inr (RecordVerb
           (<["action" := AStr "/voice-reply-callback"]>
              (<["play_beep" := ABool true]>
                 (<["method" := AStr "POST"]>
                    (<["max_length" := AInt 120]>
                       {[ "transcribe_callback" := AStr "/transcribe-callback" ]}))))) ].

(** The reply to a key whose action says a message and returns to the
    menu, the gather posting to [action]. *)
Definition message_then_menu (cfg : AppConfig) (action : string) (message : TwiML)
  : ViewReturn :=
  RvResponse (render_twiml
    (extend VoiceResponse
       ([ inr message; inr (Pause 1) ]
        ++ menu_verbs cfg action interactive_announcement))).

(** The reply that is the menu and nothing else. *)
Definition menu_only (cfg : AppConfig) (action : string) : ViewReturn :=
  RvResponse (render_twiml
    (extend VoiceResponse (menu_verbs cfg action interactive_announcement))).

(** No keyword names a parameter of [say_as_machine], [say_as_human], [say]
    or the [Say] constructor. *)
Definition ordinary_keywords (kwargs : gmap string AttrValue) : Prop :=
  kwargs !! "messages" = None /\ kwargs !! "children" = None
  /\ kwargs !! "message" = None.

(** A menu with a prompt that is not a well-formed template, and one with a
    prompt that names a variable. *)
Definition donation_menu : list (string * MenuItem) :=
  [ ("1", {| prompt := "to donate $5";
             callback_action := fun cfg response => Ok (response, RETURN_TO_MENU) |}) ].

Definition topic_menu : list (string * MenuItem) :=
  [ ("1", {| prompt := "to hear about $topic";
             callback_action := fun cfg response => Ok (response, RETURN_TO_MENU) |}) ].

(** * Properties *)

(** ** Results *)

Lemma result_map_Ok {A B} (f : A -> B) (a : A) : result_map f (Ok a) = Ok (f a).
Proof. reflexivity. Qed.

Lemma result_map_Err {A B} (f : A -> B) (e : exn) : result_map f (Err e) = Err e.
Proof. reflexivity. Qed.

(** ** Templates *)

Section TemplateFacts.

Import Template.

Variable mapping : string -> option string.

Lemma append_nil_r (s : string) : s +:+ "" = s.
Proof. induction s as [|c s IH]; simpl; [reflexivity | now rewrite IH]. Qed.

Lemma append_assoc (a b c : string) : (a +:+ b) +:+ c = a +:+ (b +:+ c).
Proof. induction a as [|x a IH]; simpl; [reflexivity | now rewrite IH]. Qed.

Lemma drop_string_add (a b : nat) (s : string) :
  drop_string (a + b) s = drop_string b (drop_string a s).
Proof.
  revert s; induction a as [|a IH]; intros s; simpl; [reflexivity|].
  destruct s as [|c s]; simpl; [now destruct b | apply IH].
Qed.

Lemma take_while_prefix (p : ascii -> bool) (s : string) :
  take_while p s +:+ drop_string (String.length (take_while p s)) s = s.
Proof.
  induction s as [|c s IH]; simpl; [reflexivity|].
  destruct (p c); simpl; [now rewrite IH | reflexivity].
Qed.

(** The identifier matched at the head of a string is a prefix of it. *)
Lemma identifier_prefix (s n : string) :
  identifier s = Some n -> n +:+ drop_string (String.length n) s = s.
Proof.
  destruct s as [|c s]; simpl; [discriminate|].
  destruct (is_id_start c); [|discriminate].
  intros [= <-]; simpl. now rewrite take_while_prefix.
Qed.

Lemma braced_identifier_prefix (s n : string) :
  braced_identifier s = Some n ->
  "{" +:+ n +:+ "}" +:+ drop_string (String.length n + 2) s = s.
Proof.
  unfold braced_identifier.
  destruct s as [|c s]; [discriminate|].
  destruct (Ascii.eqb_spec c "{"%char) as [->|Hc].
  - destruct (identifier s) as [m|] eqn:Hid; [|discriminate].
    destruct (drop_string (String.length m) s) as [|d s'] eqn:Hdrop; [discriminate|].
    destruct (Ascii.eqb_spec d "}"%char) as [->|Hd].
    + intros [= <-]. simpl. f_equal.
      replace (String.length m + 2) with (S (String.length m + 1)) by lia.
      simpl. rewrite drop_string_add, Hdrop. simpl.
      rewrite <- Hdrop. now apply identifier_prefix.
    + destruct d as [[] [] [] [] [] [] [] []]; try discriminate. now contradict Hd.
  - destruct c as [[] [] [] [] [] [] [] []]; try discriminate. now contradict Hc.
Qed.

(** The pieces are a reading of the template: their sources, put
    together, are the text that was scanned. *)
Lemma match_after_delimiter_not_escaped (s : string) :
  (forall r, s <> String delimiter r) ->
  match_after_delimiter s =
    match identifier s with
    | Some n => Named n
    | None => match braced_identifier s with
              | Some n => Braced n
              | None => Invalid
              end
    end.
Proof.
  intros Hs. unfold match_after_delimiter.
  destruct s as [|d s']; [reflexivity|].
  destruct (Ascii.eqb_spec d delimiter) as [->|Hd]; [now destruct (Hs s')|].
  destruct d as [[] [] [] [] [] [] [] []]; try reflexivity. now contradict Hd.
Qed.

(** The pieces are a reading of the template: their sources, put
    together, are the text that was scanned. *)
Lemma source_pieces_from (s : string) : forall skip,
  concat_strings (source <$> pieces_from skip s) = drop_string skip s.
Proof.
  induction s as [|c s IH]; intros skip; [now destruct skip|].
  destruct skip as [|k]; simpl; [|apply IH].
  destruct (Ascii.eqb_spec c delimiter) as [->|Hc]; simpl.
  - destruct s as [|d s'] eqn:Hs; [reflexivity|].
    destruct (Ascii.eqb_spec d delimiter) as [->|Hd].
    + specialize (IH 1). simpl in IH |- *. unfold delimiter. do 2 f_equal. exact IH.
    + rewrite <- Hs in *.
      rewrite match_after_delimiter_not_escaped
        by (intros r Hr; rewrite Hs in Hr; injection Hr as Hr _; now apply Hd).
      destruct (identifier s) as [n|] eqn:Hid.
      * simpl. rewrite IH. f_equal. now apply identifier_prefix.
      * destruct (braced_identifier s) as [n|] eqn:Hbr; simpl.
        -- rewrite IH. f_equal. rewrite append_assoc. now apply braced_identifier_prefix.
        -- unfold delimiter. f_equal. apply (IH 0).
  - f_equal. apply (IH 0).
Qed.

Lemma source_pieces (template : string) :
  concat_strings (source <$> pieces template) = template.
Proof. apply (source_pieces_from template 0). Qed.

(** [substitute] expands the pieces from left to right. *)
Lemma sub_pieces_from (s : string) : forall skip,
  sub mapping skip s = expand_all mapping (pieces_from skip s).
Proof.
  induction s as [|c s IH]; intros skip; [now destruct skip|].
  destruct skip as [|k]; simpl; [|apply IH].
  destruct (Ascii.eqb c delimiter); simpl.
  - destruct (match_after_delimiter s); simpl; rewrite <- ?IH; try reflexivity.
  - now rewrite <- IH.
Qed.

Lemma substitute_pieces (template : string) :
  substitute mapping template = expand_all mapping (pieces template).
Proof. apply sub_pieces_from. Qed.

(** With every name present a well-formed template renders, piece by
    piece. *)
Lemma expand_all_present (ps : list piece) :
  well_formed ps = true ->
  (forall n, n ∈ references ps -> is_Some (mapping n)) ->
  expand_all mapping ps = Ok (concat_strings (replacement mapping <$> ps)).
Proof.
  induction ps as [|p ps IH]; intros Hwf Hall; [reflexivity|].
  destruct p as [c| |b n|]; simpl in *; try discriminate.
  - rewrite IH by assumption. reflexivity.
  - rewrite IH by assumption. reflexivity.
  - destruct (Hall n) as [v Hv]; [apply list_elem_of_here|].
    unfold getitem. rewrite Hv. simpl.
    rewrite IH; [reflexivity | assumption |].
    intros m Hm. apply Hall. now apply list_elem_of_further.
Qed.

(** With a name missing it fails on the first such name. *)
Lemma expand_all_missing (ps : list piece) :
  well_formed ps = true ->
  (exists n, n ∈ references ps /\ mapping n = None) ->
  exists k, k ∈ references ps /\ mapping k = None
            /\ expand_all mapping ps = Err (KeyError k).
Proof.
  induction ps as [|p ps IH]; intros Hwf [n [Hin Hn]].
  - simpl in Hin. now apply elem_of_nil in Hin.
  - destruct p as [c| |b m|]; simpl in *; try discriminate.
    + destruct IH as [k (Hk1 & Hk2 & Hk3)]; eauto.
      exists k. now rewrite Hk3.
    + destruct IH as [k (Hk1 & Hk2 & Hk3)]; eauto.
      exists k. now rewrite Hk3.
    + unfold getitem. destruct (mapping m) as [v|] eqn:Hm.
      * apply elem_of_cons in Hin as [->|Hin]; [congruence|].
        destruct IH as [k (Hk1 & Hk2 & Hk3)]; eauto.
        exists k. rewrite Hk3. split; [now apply list_elem_of_further | easy].
      * exists m. split; [apply list_elem_of_here | easy].
Qed.

(** Text without a delimiter is rendered as it is. *)
Lemma sub_no_delimiter (s : string) :
  no_delimiter s = true -> sub mapping 0 s = Ok s.
Proof.
  induction s as [|c s IH]; simpl; [reflexivity|].
  destruct (Ascii.eqb c delimiter); simpl; [discriminate|].
  intros H. now rewrite IH.
Qed.

End TemplateFacts.

(** ** [render_template] *)

Lemma render_template_plain (cfg : AppConfig) (s : string) :
  Template.no_delimiter s = true -> render_template cfg s = Ok s.
Proof. apply sub_no_delimiter. Qed.

(** C5 (amended).  For a template in which every delimiter starts an escape
    or a placeholder, the pieces read from the template spell it out again;
    if it refers to a name that the variables lack, rendering fails with
    the missing-key error of such a name; if every name it refers to is
    present, rendering succeeds and yields the pieces with every reference
    replaced, once per occurrence, by the value of its name, every escape by
    one delimiter, and all other text kept. *)
Theorem render_template_well_formed (cfg : AppConfig) (template : string) :
  Template.well_formed (Template.pieces template) = true ->
  Template.concat_strings (Template.source <$> Template.pieces template) = template
  /\ ((exists n, n ∈ Template.references (Template.pieces template)
                 /\ variables (IVM cfg) !! n = None) ->
      exists k, k ∈ Template.references (Template.pieces template)
                /\ variables (IVM cfg) !! k = None
                /\ render_template cfg template = Err (KeyError k))
  /\ ((forall n, n ∈ Template.references (Template.pieces template) ->
                 is_Some (variables (IVM cfg) !! n)) ->
      render_template cfg template =
        Ok (Template.concat_strings
              (Template.replacement (fun key => variables (IVM cfg) !! key)
                 <$> Template.pieces template))).
Proof.
  intros Hwf. unfold render_template. rewrite substitute_pieces.
  split; [apply source_pieces|]. split.
  - intros Hmiss.
    apply (expand_all_missing (fun key => variables (IVM cfg) !! key)); assumption.
  - intros Hall.
    apply (expand_all_present (fun key => variables (IVM cfg) !! key)); assumption.
Qed.

Lemma render_template_well_formed_witness :
  Template.well_formed
    (Template.pieces "Hello, this is a voice message from $from_name about ${subject}. $$") = true
  /\ render_template test_config
       "Hello, this is a voice message from $from_name about ${subject}. $$"
     = Ok "Hello, this is a voice message from From about Apple. $".
Proof.
  split; [reflexivity|].
  destruct (render_template_well_formed test_config
              "Hello, this is a voice message from $from_name about ${subject}. $$"
              eq_refl) as (_ & _ & Hpresent).
  rewrite Hpresent; [reflexivity|].
  intros n Hn. vm_compute in Hn.
  repeat (apply elem_of_cons in Hn as [->|Hn]; [now eexists|]).
  now apply elem_of_nil in Hn.
Defined.

(** C5, as stated, fails: a delimiter that starts no placeholder is an
    invalid-placeholder error, raised before the missing name is looked
    up, and raised also when no name is missing at all. *)
Lemma render_template_invalid_placeholder :
  ("item" ∈ Template.references (Template.pieces "Only $5 for $item")
   /\ variables (IVM test_config) !! "item" = None
   /\ render_template test_config "Only $5 for $item" = Err ValueError
   /\ ~ (exists k, render_template test_config "Only $5 for $item" = Err (KeyError k)))
  /\ (Template.references (Template.pieces "It costs $5") = []
      /\ render_template test_config "It costs $5" = Err ValueError
      /\ ~ (exists out, render_template test_config "It costs $5" = Ok out)).
Proof.
  split; [split; [|split; [|split]] | split; [|split]]; try reflexivity.
  - vm_compute. apply list_elem_of_here.
  - intros [k Hk]. vm_compute in Hk. discriminate.
  - intros [out Hout]. vm_compute in Hout. discriminate.
Qed.

(** ** Building documents *)

Lemma nest_extend (response : TwiML) (v : string + TwiML) :
  nest response v = extend response [v].
Proof. reflexivity. Qed.

Lemma extend_extend (response : TwiML) (vs ws : list (string + TwiML)) :
  extend (extend response vs) ws = extend response (vs ++ ws).
Proof. unfold extend; simpl. now rewrite <- app_assoc. Qed.

(** Appending to the gather through its alias changes the verb that was
    just nested, and nothing else. *)
Lemma on_last_verb_nest (f : TwiML -> TwiML) (response g : TwiML) :
  on_last_verb f (nest response (inr g)) = nest response (inr (f g)).
Proof.
  unfold on_last_verb, nest; simpl.
  rewrite last_snoc, length_app; simpl.
  replace (pred (List.length (verbs response) + 1)) with (List.length (verbs response) + 0) by lia.
  now rewrite insert_app_r.
Qed.

(** ** Merging consecutive strings *)

Section Merge.



Lemma foldl_reducer_strings (l : list string) : forall s,
  foldl reducer [EStr s] (EStr <$> l) = [EStr (s +:+ Template.concat_strings l)].
Proof.
  induction l as [|x l IH]; intros s.
  - simpl. now rewrite append_nil_r.
  - rewrite fmap_cons. cbn [foldl].
    change (reducer [EStr s] (EStr x)) with [EStr (s +:+ x)].
    rewrite IH. cbn [Template.concat_strings]. now rewrite append_assoc.
Qed.

(** A non-empty list of strings merges into their concatenation. *)
Lemma concat_consecutive_strings_all (x : string) (l : list string) :
  concat_consecutive_strings (EStr <$> (x :: l))
  = [EStr (Template.concat_strings (x :: l))].
Proof.
  unfold concat_consecutive_strings. rewrite fmap_cons. cbn [foldl].
  change (reducer [] (EStr x)) with [EStr x]. apply foldl_reducer_strings.
Qed.

End Merge.

(** ** [say] *)

Lemma say_single_string (cfg : AppConfig) (s : string) (kwargs : gmap string AttrValue) :
  say cfg (Single (EStr s)) kwargs =
    (rendered <- render_template cfg s ;; Ok (MkTwiML "Say" kwargs None [inl rendered])).
Proof.
  unfold say; simpl. now destruct (render_template cfg s).
Qed.

Lemma say_strings (cfg : AppConfig) (l : list string) (kwargs : gmap string AttrValue) :
  l <> [] ->
  say cfg (Several (EStr <$> l)) kwargs =
    (rendered <- render_template cfg (Template.concat_strings l) ;;
     Ok (MkTwiML "Say" kwargs None [inl rendered])).
Proof.
  destruct l as [|x l]; [easy|]. intros _.
  unfold say, wrap_in_list. rewrite concat_consecutive_strings_all.
  simpl. now destruct (render_template cfg _).
Qed.


(** ** Callback actions *)

(** C7.  [say_message] and [say_message_and_hangup] do the same to the
    response: when the message function returns a prompt they append it
    and then a pause of one second, when it raises they raise the same
    error; the first returns RETURN_TO_MENU with that response and the
    second HANGUP. *)
Theorem say_message_variants (message : Message) (cfg : AppConfig) (response : TwiML) :
  CallbackActions.say_message message cfg response =
    (m <- message cfg ;; Ok (extend response [inr m; inr (Pause 1)], RETURN_TO_MENU))
  /\ CallbackActions.say_message_and_hangup message cfg response =
       (m <- message cfg ;; Ok (extend response [inr m; inr (Pause 1)], HANGUP))
  /\ result_map fst (CallbackActions.say_message message cfg response)
     = result_map fst (CallbackActions.say_message_and_hangup message cfg response)
  /\ result_map snd (CallbackActions.say_message message cfg response)
     = result_map (fun _ => RETURN_TO_MENU) (message cfg)
  /\ result_map snd (CallbackActions.say_message_and_hangup message cfg response)
     = result_map (fun _ => HANGUP) (message cfg).
Proof.
  unfold CallbackActions.say_message, CallbackActions.say_message_and_hangup,
    pause, append, result_map.
  destruct (message cfg) as [m|e]; simpl; rewrite ?nest_extend, ?extend_extend;
    repeat split; reflexivity.
Qed.

(** ** The menu announcement *)

Lemma say_as_machine_ordinary (cfg : AppConfig) (messages : Children)
    (kwargs : gmap string AttrValue) :
  clashing_keyword kwargs = None ->
  say_as_machine cfg messages kwargs
  = say cfg messages (<["voice" := AStr (machine_voice (IVM cfg))]> kwargs).
Proof. unfold say_as_machine. now intros ->. Qed.

Lemma say_as_human_ordinary (cfg : AppConfig) (messages : Children)
    (kwargs : gmap string AttrValue) :
  clashing_keyword kwargs = None ->
  say_as_human cfg messages kwargs
  = say cfg messages (<["voice" := AStr (human_voice (IVM cfg))]> kwargs).
Proof. unfold say_as_human. now intros ->. Qed.

Lemma concat_strings_app (l r : list string) :
  Template.concat_strings (l ++ r)
  = Template.concat_strings l +:+ Template.concat_strings r.
Proof.
  induction l as [|x l IH]; simpl; [reflexivity|].
  now rewrite IH, append_assoc.
Qed.

(** After the first item the loop adds "Press ..." options only. *)
Lemma add_option_loop (l : list (string * MenuItem)) : forall acc index,
  foldl CompositeActions.add_option acc (enumerate_from (S index) l)
  = acc ++ (option_phrase false <$> l).
Proof.
  induction l as [|[digits item] l IH]; intros acc index; simpl.
  - now rewrite app_nil_r.
  - rewrite IH, <- app_assoc. reflexivity.
Qed.

(** The options the loop of [say_menu] collects. *)
Lemma menu_options_loop (menu : list (string * MenuItem)) :
  foldl CompositeActions.add_option [] (enumerate menu) = menu_options menu.
Proof.
  destruct menu as [|[digits item] rest]; [reflexivity|].
  unfold enumerate; simpl. now rewrite add_option_loop.
Qed.

Lemma menu_options_length (menu : list (string * MenuItem)) :
  List.length (menu_options menu) = List.length menu.
Proof. destruct menu; simpl; [reflexivity | now rewrite length_fmap]. Qed.

Lemma menu_options_lookup (menu : list (string * MenuItem)) (i : nat)
    (entry : string * MenuItem) :
  menu !! i = Some entry ->
  menu_options menu !! i = Some (option_phrase (Nat.eqb i 0) entry).
Proof.
  destruct menu as [|e rest]; [easy|].
  destruct i as [|i]; simpl.
  - now intros [= ->].
  - intros H. now rewrite list_lookup_fmap, H.
Qed.

Lemma no_delimiter_app (a b : string) :
  Template.no_delimiter (a +:+ b) = Template.no_delimiter a && Template.no_delimiter b.
Proof.
  induction a as [|c a IH]; simpl; [reflexivity|].
  now rewrite IH, andb_assoc.
Qed.

Lemma no_delimiter_concat (l : list string) :
  Template.no_delimiter (Template.concat_strings l) = forallb Template.no_delimiter l.
Proof.
  induction l as [|x l IH]; simpl; [reflexivity|].
  now rewrite no_delimiter_app, IH.
Qed.

Lemma option_phrase_plain (first : bool) (entry : string * MenuItem) :
  Template.no_delimiter (option_phrase first entry)
  = Template.no_delimiter entry.1 && Template.no_delimiter (prompt entry.2).
Proof.
  unfold option_phrase. rewrite !no_delimiter_app.
  destruct first; simpl; now rewrite ?andb_true_r.
Qed.

Lemma menu_options_plain (menu : list (string * MenuItem)) :
  forallb Template.no_delimiter (menu_options menu) = plain_menu menu.
Proof.
  destruct menu as [|entry rest]; [reflexivity|].
  unfold plain_menu. cbn [menu_options forallb].
  rewrite option_phrase_plain. f_equal.
  induction rest as [|e rest IH]; [reflexivity|].
  rewrite fmap_cons. cbn [forallb]. now rewrite option_phrase_plain, IH.
Qed.

Lemma announcement_template_plain (menu : list (string * MenuItem)) :
  Template.no_delimiter (announcement_template menu) = plain_menu menu.
Proof.
  unfold announcement_template.
  rewrite no_delimiter_concat, forallb_app, menu_options_plain.
  apply andb_true_r.
Qed.

(** What [say_menu] does to the response, for every menu: the address is
    asked for first, then the announcement is rendered. *)
Lemma say_menu_spec (cfg : AppConfig) (menu : list (string * MenuItem))
    (response : TwiML) (external : bool) :
  CompositeActions.say_menu cfg menu response external =
    (action <- menu_callback_url cfg external ;;
     announcement <- render_template cfg (announcement_template menu) ;;
     Ok (extend response (menu_verbs cfg action announcement))).
Proof.
  unfold CompositeActions.say_menu.
  change (test_request_context cfg (BASE_URL cfg)
            "voice_message.handle_menu_callback" external)
    with (menu_callback_url cfg external).
  destruct (menu_callback_url cfg external) as [action|e]; [|reflexivity].
  rewrite menu_options_loop.
  rewrite !say_as_machine_ordinary by reflexivity.
  rewrite say_strings by (destruct (menu_options menu); discriminate).
  fold menu_trailer. fold (announcement_template menu).
  destruct (render_template cfg (announcement_template menu)) as [announcement|e];
    [|reflexivity].
  unfold gather. rewrite on_last_verb_nest.
  rewrite say_single_string, render_template_plain by reflexivity.
  unfold append. rewrite (nest_extend response), (nest_extend (extend _ _)), extend_extend.
  reflexivity.
Qed.

Lemma say_menu_interactive (cfg : AppConfig) (response : TwiML) (external : bool) :
  CompositeActions.say_menu cfg interactive_menu response external =
    (action <- menu_callback_url cfg external ;;
     Ok (extend response (menu_verbs cfg action interactive_announcement))).
Proof.
  rewrite say_menu_spec.
  change (announcement_template interactive_menu) with interactive_announcement.
  now rewrite render_template_plain.
Qed.

(** C2 (amended).  For every menu whose announcement text renders, and when
    the address of the callback is built, [say_menu] appends to the
    response a gather instruction (one digit, POST, 120 seconds, that
    address) whose only content is a machine-voice [Say] of the rendered
    announcement, and after it the machine-voice closing remark.  The
    announcement text is a template: the options followed by the three
    trailing sentences, one option per entry in the order of the mapping,
    the first with "Please press" and all others with "Press".  When keys
    and prompts contain no delimiter it renders, and to itself. *)
Theorem say_menu_announcement (cfg : AppConfig) (menu : list (string * MenuItem))
    (response : TwiML) (external : bool) (action announcement : string) :
  menu_callback_url cfg external = Ok action ->
  render_template cfg (announcement_template menu) = Ok announcement ->
  CompositeActions.say_menu cfg menu response external
  = Ok (extend response (menu_verbs cfg action announcement))
  /\ (plain_menu menu = true -> announcement = announcement_template menu)
  /\ foldl CompositeActions.add_option [] (enumerate menu) = menu_options menu
  /\ announcement_template menu
     = Template.concat_strings (menu_options menu)
         +:+ "Press any other key to repeat the options. Or, please feel free to hang up now. I will wait for 2 minutes before ending the call."
  /\ List.length (menu_options menu) = List.length menu
  /\ (forall i entry, menu !! i = Some entry ->
        menu_options menu !! i
        = Some ((if Nat.eqb i 0 then "Please press" else "Press")
                  +:+ " " +:+ entry.1 +:+ " " +:+ prompt entry.2 +:+ ". ")).
Proof.
  intros Haction Hrender.
  split; [now rewrite say_menu_spec, Haction, Hrender|].
  split.
  { intros Hplain. rewrite render_template_plain in Hrender.
    - now injection Hrender.
    - now rewrite announcement_template_plain. }
  split; [apply menu_options_loop|].
  split; [unfold announcement_template; now rewrite concat_strings_app|].
  split; [apply menu_options_length|].
  intros i entry H. rewrite (menu_options_lookup _ _ _ H).
  unfold option_phrase. now destruct (Nat.eqb i 0).
Qed.

Lemma say_menu_announcement_witness :
  menu_callback_url test_config true = Ok "http://localhost:5000/menu-callback"
  /\ render_template test_config (announcement_template interactive_menu)
     = Ok interactive_announcement
  /\ CompositeActions.say_menu test_config interactive_menu VoiceResponse true
     = Ok (extend VoiceResponse
             (menu_verbs test_config "http://localhost:5000/menu-callback"
                interactive_announcement)).
Proof.
  split; [reflexivity|]. split; [reflexivity|].
  apply (say_menu_announcement test_config interactive_menu VoiceResponse true
           "http://localhost:5000/menu-callback" interactive_announcement
           eq_refl eq_refl).
Defined.

(** C2, as stated, fails: a prompt is part of a template.  With one entry
    whose prompt has a delimiter that starts no placeholder, or that names
    a variable the configuration lacks, nothing is announced and no closing
    remark is appended: [say_menu] raises. *)
Lemma say_menu_prompt_not_rendered :
  List.length donation_menu = 1
  /\ CompositeActions.say_menu test_config donation_menu VoiceResponse false
     = Err ValueError
  /\ List.length topic_menu = 1
  /\ CompositeActions.say_menu test_config topic_menu VoiceResponse false
     = Err (KeyError "topic")
  /\ ~ (exists response,
          CompositeActions.say_menu test_config donation_menu VoiceResponse false
          = Ok response).
Proof.
  repeat split; try reflexivity.
  intros [response H]. vm_compute in H. discriminate.
Qed.

(** ** Dispatch *)

Lemma run_callback_action_spec (cfg : AppConfig) (action : CallbackAction)
    (response : TwiML) :
  run_callback_action cfg action response =
    match action cfg response with
    | Err e => Err e
    | Ok (response', RETURN_TO_MENU) =>
        address <- menu_callback_url cfg false ;;
        Ok (extend response' (menu_verbs cfg address interactive_announcement))
    | Ok (response', HANGUP) => Ok (extend response' [inr Hangup])
    | Ok (response', NOOP) => Ok response'
    end.
Proof.
  unfold run_callback_action.
  destruct (action cfg response) as [[response' []]|e]; try reflexivity.
  apply say_menu_interactive.
Qed.


(** ** The prompts that refer to variables *)

Section Prompts.

Variable mapping : string -> option string.

Lemma substitute_parting (from_name : string) :
  mapping "from_name" = Some from_name ->
  Template.substitute mapping
    "Thank you. Your reply will be delivered to $from_name. I hope you have a nice day."
  = Ok (parting_text from_name).
Proof.
  intros H. rewrite substitute_pieces.
  vm_compute. rewrite H. reflexivity.
Qed.

Lemma substitute_intro (from_name subject : string) :
  mapping "from_name" = Some from_name ->
  mapping "subject" = Some subject ->
  Template.substitute mapping
    "Hello, this is a voice message from $from_name about $subject."
  = Ok (intro_text from_name subject).
Proof.
  intros H1 H2. rewrite substitute_pieces.
  vm_compute. rewrite H1, H2. reflexivity.
Qed.

Lemma substitute_parting_missing :
  mapping "from_name" = None ->
  Template.substitute mapping
    "Thank you. Your reply will be delivered to $from_name. I hope you have a nice day."
  = Err (KeyError "from_name").
Proof.
  intros H. rewrite substitute_pieces.
  vm_compute. rewrite H. reflexivity.
Qed.

Lemma substitute_intro_missing :
  mapping "from_name" = None \/ mapping "subject" = None ->
  exists key,
    Template.substitute mapping
      "Hello, this is a voice message from $from_name about $subject."
    = Err (KeyError key).
Proof.
  intros H. rewrite substitute_pieces. vm_compute.
  destruct (mapping "from_name") as [from_name|]; [|now eexists].
  destruct H as [H|H]; [discriminate|]. rewrite H. now eexists.
Qed.

Lemma substitute_variable_missing (key : string) :
  Template.identifier key = Some key ->
  mapping key = None ->
  Template.substitute mapping (String Template.delimiter key) = Err (KeyError key).
Proof.
  intros Hid Hv. unfold Template.substitute. simpl.
  assert (Hm : Template.match_after_delimiter key = Template.Named key).
  { unfold Template.match_after_delimiter. rewrite Hid.
    destruct key as [|c key]; [discriminate|].
    simpl in Hid. destruct c as [[] [] [] [] [] [] [] []]; try reflexivity.
    discriminate. }
  rewrite Hm. unfold getitem. now rewrite Hv.
Qed.

Lemma substitute_variable (key v : string) :
  Template.identifier key = Some key ->
  mapping key = Some v ->
  Template.substitute mapping (String Template.delimiter key) = Ok v.
Proof.
  intros Hid Hv. unfold Template.substitute. simpl.
  assert (Hm : Template.match_after_delimiter key = Template.Named key).
  { unfold Template.match_after_delimiter. rewrite Hid.
    destruct key as [|c key]; [discriminate|].
    simpl in Hid. destruct c as [[] [] [] [] [] [] [] []]; try reflexivity.
    discriminate. }
  rewrite Hm. unfold getitem. rewrite Hv.
  assert (Hrest : Template.sub mapping (String.length key) key = Ok "").
  { clear. induction key as [|c key IH]; simpl; [reflexivity | exact IH]. }
  rewrite Hrest. now rewrite append_nil_r.
Qed.

End Prompts.

Lemma parting_spec (cfg : AppConfig) (from_name : string) :
  variables (IVM cfg) !! "from_name" = Some from_name ->
  DynamicMessages.parting cfg
  = Ok (spoken (machine_voice (IVM cfg)) (parting_text from_name)).
Proof.
  intros H. unfold DynamicMessages.parting, say_as_machine.
  rewrite say_single_string. unfold render_template.
  now rewrite (substitute_parting _ from_name).
Qed.

Lemma intro_spec (cfg : AppConfig) (from_name subject : string) :
  variables (IVM cfg) !! "from_name" = Some from_name ->
  variables (IVM cfg) !! "subject" = Some subject ->
  DynamicMessages.intro cfg
  = Ok (spoken (machine_voice (IVM cfg)) (intro_text from_name subject)).
Proof.
  intros H1 H2. unfold DynamicMessages.intro, say_as_machine.
  rewrite say_single_string. unfold render_template.
  now rewrite (substitute_intro _ from_name subject).
Qed.

Lemma main_spec (cfg : AppConfig) (main_message : string) :
  variables (IVM cfg) !! "main_message" = Some main_message ->
  DynamicMessages.main cfg = Ok (spoken (human_voice (IVM cfg)) main_message).
Proof.
  intros H. unfold DynamicMessages.main, say_as_human.
  rewrite say_single_string. unfold render_template.
  now rewrite (substitute_variable _ "main_message" main_message).
Qed.

Lemma email_address_spec (cfg : AppConfig) (email : string) :
  variables (IVM cfg) !! "email" = Some email ->
  DynamicMessages.email_address cfg = Ok (email_prompt (human_voice (IVM cfg)) email).
Proof.
  intros H. unfold DynamicMessages.email_address, render_template.
  rewrite (substitute_variable _ "email" email) by easy.
  reflexivity.
Qed.

Lemma parting_missing (cfg : AppConfig) :
  variables (IVM cfg) !! "from_name" = None ->
  DynamicMessages.parting cfg = Err (KeyError "from_name").
Proof.
  intros H. unfold DynamicMessages.parting, say_as_machine.
  rewrite say_single_string. unfold render_template.
  now rewrite substitute_parting_missing.
Qed.

Lemma intro_missing (cfg : AppConfig) :
  variables (IVM cfg) !! "from_name" = None \/ variables (IVM cfg) !! "subject" = None ->
  exists key, DynamicMessages.intro cfg = Err (KeyError key).
Proof.
  intros H. unfold DynamicMessages.intro, say_as_machine.
  rewrite say_single_string. unfold render_template.
  destruct (substitute_intro_missing (fun key => variables (IVM cfg) !! key) H)
    as [key Hkey].
  exists key. now rewrite Hkey.
Qed.

Lemma main_missing (cfg : AppConfig) :
  variables (IVM cfg) !! "main_message" = None ->
  DynamicMessages.main cfg = Err (KeyError "main_message").
Proof.
  intros H. unfold DynamicMessages.main, say_as_human.
  rewrite say_single_string. unfold render_template.
  now rewrite (substitute_variable_missing _ "main_message").
Qed.

Lemma email_address_missing (cfg : AppConfig) :
  variables (IVM cfg) !! "email" = None ->
  DynamicMessages.email_address cfg = Err (KeyError "email").
Proof.
  intros H. unfold DynamicMessages.email_address, render_template.
  now rewrite (substitute_variable_missing _ "email").
Qed.

(** ** Webhooks *)

(** The keys of [interactive_menu] are "1", "2" and "3". *)
Lemma interactive_menu_unmapped (digits : string) :
  dict_get interactive_menu digits = None
  <-> digits <> "1" /\ digits <> "2" /\ digits <> "3".
Proof.
  unfold interactive_menu. cbn [dict_get].
  destruct (String.eqb_spec "1" digits) as [<-|H1];
    [split; [discriminate | intros (H & _ & _); now contradict H]|].
  destruct (String.eqb_spec "2" digits) as [<-|H2];
    [split; [discriminate | intros (_ & H & _); now contradict H]|].
  destruct (String.eqb_spec "3" digits) as [<-|H3];
    [split; [discriminate | intros (_ & _ & H); now contradict H]|].
  split; [intros _; repeat split; congruence | reflexivity].
Qed.

Lemma unmapped_key_action_spec (cfg : AppConfig) (response : TwiML) :
  run_callback_action cfg unmapped_key_action response =
    (address <- menu_callback_url cfg false ;;
     Ok (extend response (menu_verbs cfg address interactive_announcement))).
Proof. now rewrite run_callback_action_spec. Qed.

Lemma handle_menu_callback_spec (cfg : AppConfig) (request : Request) (digits : string) :
  dict_get (form request) "Digits" = Some digits ->
  handle_menu_callback cfg request =
    match dict_get interactive_menu digits with
    | Some item =>
        result_map (fun response => RvResponse (render_twiml response))
          (run_callback_action cfg (callback_action item) VoiceResponse)
    | None => result_map (menu_only cfg) (menu_callback_url cfg false)
    end.
Proof.
  intros H. unfold handle_menu_callback, form_getitem. rewrite H.
  destruct (dict_get interactive_menu digits) as [item|]; [reflexivity|].
  rewrite unmapped_key_action_spec.
  now destruct (menu_callback_url cfg false).
Qed.



(** C10.  When the form has no Digits field the handler raises the
    bad-request key error for "Digits", which the client sees as status
    400; no action is run and no document is returned. *)
Theorem handle_menu_callback_missing_digits (cfg : AppConfig) (request : Request) :
  dict_get (form request) "Digits" = None ->
  handle_menu_callback cfg request = Err (BadRequestKeyError "Digits")
  /\ http_status (handle_menu_callback cfg request) = 400%Z.
Proof.
  intros H. unfold handle_menu_callback, form_getitem. rewrite H.
  split; reflexivity.
Qed.

Lemma handle_menu_callback_missing_digits_witness :
  dict_get (form {| form := [("CallSid", "CA1")]; data := "" |}) "Digits" = None
  /\ handle_menu_callback test_config {| form := [("CallSid", "CA1")]; data := "" |}
     = Err (BadRequestKeyError "Digits").
Proof.
  split; [reflexivity|].
  apply (handle_menu_callback_missing_digits test_config
           {| form := [("CallSid", "CA1")]; data := "" |} eq_refl).
Defined.

(** C3 (amended).  The reply to the recording-finished callback depends on
    the variable [from_name] only: when it is defined the document has
    exactly three verbs, the parting prompt in the machine voice, a pause of
    one second and a hang-up; when it is not, rendering the prompt raises
    the missing-key error.  The three verbs contain no gather instruction,
    so the menu is not announced again. *)
Theorem handle_voice_reply_callback_markup (cfg : AppConfig) (request : Request) :
  handle_voice_reply_callback cfg request =
    match variables (IVM cfg) !! "from_name" with
    | Some from_name =>
        Ok (RvResponse (render_twiml
              (extend VoiceResponse
                 (voice_reply_verbs (machine_voice (IVM cfg)) from_name))))
    | None => Err (KeyError "from_name")
    end
  /\ (forall voice from_name,
        voice_reply_verbs voice from_name
        = [ inr (spoken voice (parting_text from_name)); inr (Pause 1); inr Hangup ]
        /\ Forall (fun v => match v with
                            | inr t => name t <> "Gather"
                            | inl _ => True
                            end)
                  (voice_reply_verbs voice from_name)).
Proof.
  split.
  - unfold handle_voice_reply_callback. rewrite run_callback_action_spec.
    unfold CallbackActions.say_message_and_hangup.
    destruct (variables (IVM cfg) !! "from_name") as [from_name|] eqn:H.
    + rewrite (parting_spec cfg from_name H).
      unfold pause, append. rewrite !nest_extend, !extend_extend. reflexivity.
    + now rewrite (parting_missing cfg H).
  - intros voice from_name. split; [reflexivity|].
    unfold voice_reply_verbs. repeat constructor; discriminate.
Qed.

(** C3, as stated, fails: with the configuration of the tests the parting
    prompt carries the machine voice, which is not the human voice, so the
    reply is not the document with the prompt in the human voice. *)
Lemma handle_voice_reply_callback_not_human_voice :
  first_voice (handle_voice_reply_callback test_config {| form := []; data := "" |})
  = Some (AStr (machine_voice (IVM test_config)))
  /\ machine_voice (IVM test_config) <> human_voice (IVM test_config)
  /\ handle_voice_reply_callback test_config {| form := []; data := "" |}
     <> Ok (RvResponse (render_twiml
              (extend VoiceResponse
                 (voice_reply_verbs (human_voice (IVM test_config)) "From")))).
Proof.
  split; [reflexivity|]. split; [discriminate|].
  intros H. apply (f_equal first_voice) in H. vm_compute in H. discriminate.
Qed.

(** C9.  Whatever the request carries, the transcription callback returns
    the empty string: a response with status 200 and an empty body.  The
    handler reads nothing and builds no document. *)
Theorem handle_transcribe_callback_empty (cfg : AppConfig) (request : Request) :
  handle_transcribe_callback cfg request = Ok (RvStr (Lit ""))
  /\ http_status (handle_transcribe_callback cfg request) = 200%Z
  /\ result_map (fun rv => response_data (make_response rv))
       (handle_transcribe_callback cfg request) = Ok (Lit "").
Proof. repeat split. Qed.

Lemma start_call_spec (cfg : AppConfig)
    (Client : string -> string -> result TwilioClient) (client : TwilioClient)
    (from_name subject main_message email : string) :
  variables (IVM cfg) !! "from_name" = Some from_name ->
  variables (IVM cfg) !! "subject" = Some subject ->
  variables (IVM cfg) !! "main_message" = Some main_message ->
  variables (IVM cfg) !! "email" = Some email ->
  Client (twilio_account_sid (IVM cfg)) (twilio_auth_token (IVM cfg)) = Ok client ->
  start_call cfg Client =
    (address <- menu_callback_url cfg true ;;
     sid <- calls_create client
              (call_script cfg address from_name subject main_message email)
              (to_number (IVM cfg)) (from_number (IVM cfg)) ;;
     Ok (RvStr (Cat (Lit ("Initiated call with SID " +:+ sid
                          +:+ " with the following VoiceResponse:" +:+ newline))
                    (Str (call_script cfg address from_name subject
                            main_message email))))).
Proof.
  intros Hfrom Hsubject Hmain Hemail Hclient.
  unfold start_call, create_twilio_client. rewrite Hclient.
  rewrite (intro_spec cfg from_name subject Hfrom Hsubject).
  rewrite (main_spec cfg main_message Hmain).
  rewrite (email_address_spec cfg email Hemail).
  rewrite say_menu_interactive.
  destruct (menu_callback_url cfg true) as [address|e]; [|reflexivity].
  unfold pause, append. rewrite !nest_extend, !extend_extend.
  reflexivity.
Qed.

(** C8.  [start_call] succeeds exactly when the variables define the four
    names of the script, the client is created, the external address of the
    menu callback is built and the provider places the call; the document
    handed to the provider, and shown in the reply, is then [call_script]:
    the intro in the machine voice, a pause, the main message in the human
    voice, the email prompt in the human voice with the address in a
    spell-out tag, a pause, and the menu announcement whose gather posts to
    that external address, the one [url_for] gives with [_external=True]
    in a request context made for the configured base URL. *)
Theorem start_call_markup (cfg : AppConfig)
    (Client : string -> string -> result TwilioClient) (rv : ViewReturn) :
  (start_call cfg Client = Ok rv
   <-> exists client from_name subject main_message email address sid,
         variables (IVM cfg) !! "from_name" = Some from_name
         /\ variables (IVM cfg) !! "subject" = Some subject
         /\ variables (IVM cfg) !! "main_message" = Some main_message
         /\ variables (IVM cfg) !! "email" = Some email
         /\ Client (twilio_account_sid (IVM cfg)) (twilio_auth_token (IVM cfg)) = Ok client
         /\ test_request_context cfg (BASE_URL cfg)
              "voice_message.handle_menu_callback" true = Ok address
         /\ calls_create client
              (call_script cfg address from_name subject main_message email)
              (to_number (IVM cfg)) (from_number (IVM cfg)) = Ok sid
         /\ rv = RvStr (Cat (Lit ("Initiated call with SID " +:+ sid
                                  +:+ " with the following VoiceResponse:" +:+ newline))
                            (Str (call_script cfg address from_name subject
                                    main_message email))))
  /\ (forall address from_name subject main_message email,
        verbs (call_script cfg address from_name subject main_message email)
        = [ inr (spoken (machine_voice (IVM cfg)) (intro_text from_name subject));
            inr (Pause 1);
            inr (spoken (human_voice (IVM cfg)) main_message);
            inr (email_prompt (human_voice (IVM cfg)) email);
            inr (Pause 1) ]
          ++ menu_verbs cfg address interactive_announcement).
Proof.
  split; [|reflexivity]. split.
  - intros H.
    destruct (Client (twilio_account_sid (IVM cfg)) (twilio_auth_token (IVM cfg)))
      as [client|e] eqn:Hclient;
      [|unfold start_call, create_twilio_client in H; rewrite Hclient in H; discriminate].
    destruct (variables (IVM cfg) !! "from_name") as [from_name|] eqn:Hfrom;
      [|destruct (intro_missing cfg (or_introl Hfrom)) as [key Hkey];
        unfold start_call, create_twilio_client in H;
        rewrite Hclient, Hkey in H; discriminate].
    destruct (variables (IVM cfg) !! "subject") as [subject|] eqn:Hsubject;
      [|destruct (intro_missing cfg (or_intror Hsubject)) as [key Hkey];
        unfold start_call, create_twilio_client in H;
        rewrite Hclient, Hkey in H; discriminate].
    destruct (variables (IVM cfg) !! "main_message") as [main_message|] eqn:Hmain;
      [|unfold start_call, create_twilio_client in H;
        rewrite Hclient, (intro_spec cfg from_name subject Hfrom Hsubject),
          (main_missing cfg Hmain) in H; discriminate].
    destruct (variables (IVM cfg) !! "email") as [email|] eqn:Hemail;
      [|unfold start_call, create_twilio_client in H;
        rewrite Hclient, (intro_spec cfg from_name subject Hfrom Hsubject),
          (main_spec cfg main_message Hmain), (email_address_missing cfg Hemail) in H;
        discriminate].
    rewrite (start_call_spec cfg Client client from_name subject main_message email)
      in H by assumption.
    unfold menu_callback_url in H.
    destruct (test_request_context cfg _ _ _) as [address|e] eqn:Haddress;
      [|discriminate].
    destruct (calls_create client _ _ _) as [sid|e] eqn:Hcall; [|discriminate].
    injection H as <-.
    exists client, from_name, subject, main_message, email, address, sid.
    repeat split; assumption.
  - intros (client & from_name & subject & main_message & email & address & sid
            & Hfrom & Hsubject & Hmain & Hemail & Hclient & Haddress & Hcall & ->).
    rewrite (start_call_spec cfg Client client from_name subject main_message email)
      by assumption.
    unfold menu_callback_url. now rewrite Haddress, Hcall.
Qed.

(** The run of the test suite: the reply carries the script for the
    variables of the test configuration. *)
Lemma start_call_markup_witness :
  start_call test_config mock_Client
  = Ok (RvStr (Cat (Lit ("Initiated call with SID 140233184318736"
                         +:+ " with the following VoiceResponse:" +:+ newline))
                   (Str (call_script test_config "http://localhost:5000/menu-callback"
                           "From" "Apple" "Apples are red" "test@example.com")))).
Proof.
  apply (start_call_markup test_config mock_Client).
  exists {| calls_create := fun _ _ _ => Ok "140233184318736" |},
    "From", "Apple", "Apples are red", "test@example.com",
    "http://localhost:5000/menu-callback", "140233184318736".
  repeat split; reflexivity.
Defined.

(** ** The scenarios of the test suite *)

(** Key 1: the main message in the human voice, a pause, the menu again. *)
Example menu_callback_pressed_1 :
  handle_menu_callback test_config {| form := [("Digits", "1")]; data := "" |}
  = Ok (RvResponse (render_twiml
          (extend VoiceResponse
             ([ inr (spoken "Polly.Salli-Neural" "Apples are red"); inr (Pause 1) ]
              ++ menu_verbs test_config "/menu-callback" interactive_announcement)))).
Proof. reflexivity. Qed.

(** Key 3: the recording prompt and the record instruction, nothing after. *)
Example menu_callback_pressed_3 :
  handle_menu_callback test_config {| form := [("Digits", "3")]; data := "" |}
  = Ok (RvResponse (render_twiml
          (extend VoiceResponse
             [ inr (spoken "Polly.Matthew-Neural"
                      "Please leave a reply after you hear a beep. Press the pound sign to finish recording.");
               inr (RecordVerb
                      (<["action" := AStr "/voice-reply-callback"]>
                         (<["play_beep" := ABool true]>
                            (<["method" := AStr "POST"]>
                               (<["max_length" := AInt 120]>
                                  {[ "transcribe_callback" := AStr "/transcribe-callback" ]}))))) ]))).
Proof. reflexivity. Qed.

(** An unmapped key, the empty string and several digits: the menu only. *)
Example menu_callback_unmapped :
  Forall (fun digits =>
            handle_menu_callback test_config {| form := [("Digits", digits)]; data := "" |}
            = Ok (RvResponse (render_twiml
                    (extend VoiceResponse
                       (menu_verbs test_config "/menu-callback"
                          interactive_announcement)))))
         ["9"; ""; "12"; "#"].
Proof. repeat constructor. Qed.

(** * Further properties of the code *)

(** ** [concat_consecutive_strings] *)

Section Concat.

Lemma adjacent_strings_snoc (l : list TwiMLElement) (x : TwiMLElement) :
  adjacent_strings (l ++ [x])
  = adjacent_strings l
    || match last l with
       | Some y => is_str y && is_str x
       | None => false
       end.
Proof.
  induction l as [|a l IH]; [reflexivity|].
  destruct l as [|b l'].
  - simpl. now rewrite !orb_false_r.
  - change (adjacent_strings ((a :: b :: l') ++ [x]))
      with ((is_str a && is_str b) || adjacent_strings ((b :: l') ++ [x])).
    rewrite IH.
    change (adjacent_strings (a :: b :: l'))
      with ((is_str a && is_str b) || adjacent_strings (b :: l')).
    change (last (a :: b :: l')) with (last (b :: l')).
    now rewrite orb_assoc.
Qed.

Lemma reducer_merge (acc : list TwiMLElement) (s e : string) :
  reducer (acc ++ [EStr s]) (EStr e) = acc ++ [EStr (s +:+ e)].
Proof.
  unfold reducer. rewrite last_snoc, length_app; simpl.
  replace (pred (List.length acc + 1)) with (List.length acc + 0) by lia.
  now rewrite insert_app_r.
Qed.

Lemma reducer_append (acc : list TwiMLElement) (x : TwiMLElement) :
  match last acc with
  | Some y => is_str y && is_str x
  | None => false
  end = false ->
  reducer acc x = acc ++ [x].
Proof.
  unfold reducer. destruct (last acc) as [[s|f|t]|]; try reflexivity.
  destruct x; [discriminate | reflexivity | reflexivity].
Qed.

Lemma concat_consecutive_strings_snoc (l : list TwiMLElement) (x : TwiMLElement) :
  concat_consecutive_strings (l ++ [x]) = reducer (concat_consecutive_strings l) x.
Proof. unfold concat_consecutive_strings. now rewrite foldl_snoc. Qed.

Lemma reducer_no_adjacent (acc : list TwiMLElement) (x : TwiMLElement) :
  adjacent_strings acc = false -> adjacent_strings (reducer acc x) = false.
Proof.
  destruct acc as [|y acc _] using rev_ind; [reflexivity|].
  intros H. rewrite adjacent_strings_snoc in H.
  apply orb_false_iff in H as [Hacc Hlast].
  destruct y as [s|f|t], x as [e|g|u];
    try (rewrite reducer_append by (now rewrite last_snoc);
         rewrite !adjacent_strings_snoc, !last_snoc, Hacc, Hlast; reflexivity).
  rewrite reducer_merge, adjacent_strings_snoc, Hacc.
  simpl in Hlast |- *. exact Hlast.
Qed.

Lemma concat_no_adjacent (elems : list TwiMLElement) :
  adjacent_strings (concat_consecutive_strings elems) = false.
Proof.
  induction elems as [|x elems IH] using rev_ind; [reflexivity|].
  rewrite concat_consecutive_strings_snoc. now apply reducer_no_adjacent.
Qed.

Lemma concat_fixed (elems : list TwiMLElement) :
  adjacent_strings elems = false -> concat_consecutive_strings elems = elems.
Proof.
  induction elems as [|x elems IH] using rev_ind; [reflexivity|].
  intros H. rewrite adjacent_strings_snoc in H.
  apply orb_false_iff in H as [Helems Hlast].
  rewrite concat_consecutive_strings_snoc, IH by assumption.
  now apply reducer_append.
Qed.

Lemma joined_text_app (l r : list TwiMLElement) :
  joined_text (l ++ r) = joined_text l +:+ joined_text r.
Proof.
  induction l as [|[s|f|t] l IH]; simpl; try assumption; [reflexivity|].
  now rewrite IH, append_assoc.
Qed.

Lemma non_strings_app (l r : list TwiMLElement) :
  non_strings (l ++ r) = non_strings l ++ non_strings r.
Proof.
  induction l as [|x l IH]; simpl; [reflexivity|].
  destruct (is_str x); simpl; now rewrite IH.
Qed.

Lemma reducer_content (acc : list TwiMLElement) (x : TwiMLElement) :
  joined_text (reducer acc x) = joined_text (acc ++ [x])
  /\ non_strings (reducer acc x) = non_strings (acc ++ [x])
  /\ List.length (reducer acc x) <= List.length (acc ++ [x]).
Proof.
  destruct acc as [|y acc _] using rev_ind; [now repeat split|].
  destruct y as [s|f|t], x as [e|g|u];
    try (rewrite reducer_append by (now rewrite last_snoc); now repeat split).
  rewrite reducer_merge, !joined_text_app, !non_strings_app, !length_app; simpl.
  rewrite !append_nil_r, append_assoc, !app_nil_r. repeat split; lia.
Qed.

Lemma concat_content (elems : list TwiMLElement) :
  joined_text (concat_consecutive_strings elems) = joined_text elems
  /\ non_strings (concat_consecutive_strings elems) = non_strings elems
  /\ List.length (concat_consecutive_strings elems) <= List.length elems.
Proof.
  induction elems as [|x elems (IH1 & IH2 & IH3)] using rev_ind; [now repeat split|].
  rewrite concat_consecutive_strings_snoc.
  destruct (reducer_content (concat_consecutive_strings elems) x) as (H1 & H2 & H3).
  rewrite H1, H2, !joined_text_app, !non_strings_app, IH1, IH2.
  repeat split. rewrite length_app in *. simpl in *. lia.
Qed.

End Concat.

(** X1.  In the list [concat_consecutive_strings] returns no two strings
    stand next to each other, whatever the input. *)
Theorem concat_consecutive_strings_separates (elems : list TwiMLElement) :
  adjacent_strings (concat_consecutive_strings elems) = false.
Proof. apply concat_no_adjacent. Qed.

(** X2.  A list without two neighbouring strings is returned unchanged. *)
Theorem concat_consecutive_strings_fixed (elems : list TwiMLElement) :
  adjacent_strings elems = false -> concat_consecutive_strings elems = elems.
Proof. apply concat_fixed. Qed.

Lemma concat_consecutive_strings_fixed_witness :
  adjacent_strings [EStr "a"; ETwiML Hangup; EStr "b"] = false
  /\ concat_consecutive_strings [EStr "a"; ETwiML Hangup; EStr "b"]
     = [EStr "a"; ETwiML Hangup; EStr "b"].
Proof.
  split; [reflexivity|].
  apply (concat_consecutive_strings_fixed [EStr "a"; ETwiML Hangup; EStr "b"] eq_refl).
Defined.

(** X3.  Merging is idempotent: a second pass changes nothing. *)
Theorem concat_consecutive_strings_idempotent (elems : list TwiMLElement) :
  concat_consecutive_strings (concat_consecutive_strings elems)
  = concat_consecutive_strings elems.
Proof. apply concat_fixed, concat_no_adjacent. Qed.

(** X4.  Merging loses nothing: the text of the strings, read in order, is
    the same before and after; the pieces that are not strings are the same,
    in the same order; and the list does not get longer. *)
Theorem concat_consecutive_strings_content (elems : list TwiMLElement) :
  joined_text (concat_consecutive_strings elems) = joined_text elems
  /\ non_strings (concat_consecutive_strings elems) = non_strings elems
  /\ List.length (concat_consecutive_strings elems) <= List.length elems.
Proof. apply concat_content. Qed.

(** ** [say] and the two voices *)





Lemma clashing_keyword_voice (voice : AttrValue) (kwargs : gmap string AttrValue) :
  clashing_keyword (<["voice" := voice]> kwargs) = clashing_keyword kwargs.
Proof.
  unfold clashing_keyword. now rewrite !lookup_insert_ne by discriminate.
Qed.

(** X7.  When no keyword names a parameter of its own, of [say] or of the
    [Say] constructor, the voice a caller passes to [say_as_machine] or
    [say_as_human] is overwritten by the configured one, and the other
    keyword arguments are kept as attributes of the [Say]. *)
Theorem say_as_voice_overrides (cfg : AppConfig) (messages : Children)
    (voice : AttrValue) (kwargs : gmap string AttrValue) (s : string) :
  ordinary_keywords kwargs ->
  say_as_machine cfg messages (<["voice" := voice]> kwargs)
  = say_as_machine cfg messages kwargs
  /\ say_as_human cfg messages (<["voice" := voice]> kwargs)
     = say_as_human cfg messages kwargs
  /\ say_as_machine cfg (Single (EStr s)) kwargs =
       (rendered <- render_template cfg s ;;
        Ok (MkTwiML "Say" (<["voice" := AStr (machine_voice (IVM cfg))]> kwargs)
              None [inl rendered]))
  /\ say_as_human cfg (Single (EStr s)) kwargs =
       (rendered <- render_template cfg s ;;
        Ok (MkTwiML "Say" (<["voice" := AStr (human_voice (IVM cfg))]> kwargs)
              None [inl rendered])).
Proof.
  intros (Hmessages & Hchildren & _).
  assert (Hkw : clashing_keyword kwargs = None)
    by (unfold clashing_keyword; now rewrite Hmessages, Hchildren).
  rewrite !say_as_machine_ordinary, !say_as_human_ordinary
    by (rewrite ?clashing_keyword_voice; exact Hkw).
  rewrite !insert_insert_eq, !say_single_string. now repeat split.
Qed.

Lemma say_as_voice_overrides_witness :
  ordinary_keywords {[ "loop" := AInt 2 ]}
  /\ say_as_human test_config (Single (EStr "Hello"))
       (<["voice" := AStr "Polly.Joanna"]> {[ "loop" := AInt 2 ]})
     = say_as_human test_config (Single (EStr "Hello")) {[ "loop" := AInt 2 ]}.
Proof.
  split; [repeat split|].
  apply (say_as_voice_overrides test_config (Single (EStr "Hello"))
           (AStr "Polly.Joanna") {[ "loop" := AInt 2 ]} "Hello").
  repeat split.
Defined.

(** ** More on [render_template] *)

Section Rendering.

Import Template.

Variable mapping : string -> option string.

Lemma sub_plain_prefix (p t : string) :
  no_delimiter p = true ->
  sub mapping 0 (p +:+ t) = (out <- sub mapping 0 t ;; Ok (p +:+ out)).
Proof.
  induction p as [|c p IH]; simpl.
  - intros _. now destruct (sub mapping 0 t).
  - destruct (Ascii.eqb c delimiter); simpl; [discriminate|].
    intros H. rewrite (IH H). now destruct (sub mapping 0 t).
Qed.

Lemma sub_skip (a t : string) :
  sub mapping (String.length a) (a +:+ t) = sub mapping 0 t.
Proof.
  induction a as [|c a IH]; simpl; [|exact IH].
  destruct t; reflexivity.
Qed.

Lemma sub_escaped (s : string) :
  sub mapping 0 (escape_delimiters s) = Ok s.
Proof.
  induction s as [|c s IH]; [reflexivity|].
  cbn [escape_delimiters].
  destruct (Ascii.eqb_spec c delimiter) as [->|Hc].
  - cbn [sub]. change (Ascii.eqb delimiter delimiter) with true. cbv iota.
    change (match_after_delimiter (String delimiter (escape_delimiters s)))
      with Escaped.
    cbv iota. now rewrite IH.
  - cbn [sub]. destruct (Ascii.eqb_spec c delimiter) as [Heq|_]; [now destruct Hc|].
    now rewrite IH.
Qed.

Lemma expand_all_ext (mapping' : string -> option string) (ps : list piece) :
  (forall n, n ∈ references ps -> mapping n = mapping' n) ->
  expand_all mapping ps = expand_all mapping' ps.
Proof.
  induction ps as [|p ps IH]; intros H; [reflexivity|].
  destruct p as [c| |b n|]; simpl in *; try reflexivity.
  - now rewrite IH.
  - now rewrite IH.
  - unfold getitem. rewrite <- (H n) by apply list_elem_of_here.
    destruct (mapping n); [|reflexivity].
    rewrite IH; [reflexivity|].
    intros m Hm. apply H. now apply list_elem_of_further.
Qed.

Lemma take_while_stop (p : ascii -> bool) (ks : string) (c : ascii) (t : string) :
  take_while p ks = ks -> p c = false -> take_while p (ks +:+ String c t) = ks.
Proof.
  induction ks as [|k ks IH]; simpl; intros Hks Hc.
  - now rewrite Hc.
  - destruct (p k); [|discriminate].
    injection Hks as Hks. now rewrite IH.
Qed.

Lemma take_while_end (p : ascii -> bool) (ks : string) :
  take_while p ks = ks -> take_while p (ks +:+ "") = ks.
Proof. now rewrite append_nil_r. Qed.

Lemma identifier_followed (key t : string) :
  identifier key = Some key -> ends_identifier t = true ->
  identifier (key +:+ t) = Some key.
Proof.
  destruct key as [|k ks]; [discriminate|]. simpl.
  destruct (is_id_start k); [|discriminate].
  intros [= Hks] Ht. f_equal. f_equal.
  destruct t as [|c t].
  - now apply take_while_end.
  - apply take_while_stop; [assumption|].
    simpl in Ht. now destruct (is_id_char c).
Qed.

Lemma drop_string_app (a t : string) :
  drop_string (String.length a) (a +:+ t) = t.
Proof.
  induction a as [|c a IH]; simpl; [|exact IH].
  destruct t; reflexivity.
Qed.

Lemma identifier_not_delimiter (key : string) (r : string) :
  identifier key = Some key -> forall t, key +:+ t <> String delimiter r.
Proof.
  destruct key as [|k ks]; [discriminate|]. simpl.
  destruct (is_id_start k) eqn:Hk; [|discriminate].
  intros _ t [= -> _]. discriminate.
Qed.

Lemma match_named (key t : string) :
  identifier key = Some key -> ends_identifier t = true ->
  match_after_delimiter (key +:+ t) = Named key.
Proof.
  intros Hid Ht.
  rewrite match_after_delimiter_not_escaped
    by (intros r; now apply identifier_not_delimiter).
  now rewrite identifier_followed.
Qed.

Lemma match_braced (key t : string) :
  identifier key = Some key ->
  match_after_delimiter (String "{" (key +:+ String "}" t)) = Braced key.
Proof.
  intros Hid.
  rewrite match_after_delimiter_not_escaped by (intros r; discriminate).
  change (identifier (String "{" (key +:+ String "}" t))) with (@None string).
  unfold braced_identifier.
  rewrite identifier_followed by (assumption || reflexivity).
  now rewrite drop_string_app.
Qed.

Lemma sub_named (key t : string) :
  identifier key = Some key -> ends_identifier t = true ->
  sub mapping 0 (String delimiter (key +:+ t))
  = (v <- getitem mapping key ;; out <- sub mapping 0 t ;; Ok (v +:+ out)).
Proof.
  intros Hid Ht. cbn [sub].
  change (Ascii.eqb delimiter delimiter) with true. cbv iota.
  rewrite (match_named key t Hid Ht). now rewrite sub_skip.
Qed.

Lemma sub_braced (key t : string) :
  identifier key = Some key ->
  sub mapping 0 (String delimiter (String "{" (key +:+ String "}" t)))
  = (v <- getitem mapping key ;; out <- sub mapping 0 t ;; Ok (v +:+ out)).
Proof.
  intros Hid. cbn [sub].
  change (Ascii.eqb delimiter delimiter) with true. cbv iota.
  rewrite (match_braced key t Hid).
  replace (String.length key + 2) with (S (String.length key + 1)) by lia.
  cbn [sub]. 
  replace (String.length key + 1) with (String.length (key +:+ "}")).
  - change (String "}" t) with ("}" +:+ t).
    rewrite <- append_assoc. now rewrite sub_skip.
  - clear. induction key as [|c key IH]; simpl; [reflexivity | now rewrite IH].
Qed.

End Rendering.

(** X8.  Text without a delimiter is copied: a prefix without delimiter
    comes out unchanged in front of the rendering of the rest, and a
    template without any delimiter is its own rendering, whatever the
    variables are. *)
Theorem render_template_plain_prefix (cfg : AppConfig) (p t : string) :
  Template.no_delimiter p = true ->
  render_template cfg (p +:+ t) = (out <- render_template cfg t ;; Ok (p +:+ out))
  /\ render_template cfg p = Ok p.
Proof.
  intros H. split; [now apply sub_plain_prefix | now apply sub_no_delimiter].
Qed.

Lemma render_template_plain_prefix_witness :
  Template.no_delimiter "Dear " = true
  /\ render_template test_config ("Dear " +:+ "$from_name") = Ok "Dear From".
Proof.
  split; [reflexivity|].
  destruct (render_template_plain_prefix test_config "Dear " "$from_name" eq_refl)
    as [H _].
  rewrite H. reflexivity.
Defined.

(** X9.  Doubling every delimiter of a text protects it: the rendering of
    the doubled text is the text itself, for every configuration. *)
Theorem render_template_escape (cfg : AppConfig) (s : string) :
  render_template cfg (escape_delimiters s) = Ok s.
Proof. apply sub_escaped. Qed.

(** X10.  Rendering looks at the variables the template refers to and at
    no others: two configurations that agree on those names render the
    template alike, errors included. *)
Theorem render_template_referenced_only (cfg cfg' : AppConfig) (template : string) :
  (forall n, n ∈ Template.references (Template.pieces template) ->
             variables (IVM cfg) !! n = variables (IVM cfg') !! n) ->
  render_template cfg template = render_template cfg' template.
Proof.
  intros H. unfold render_template. rewrite !substitute_pieces.
  now apply expand_all_ext.
Qed.

Lemma render_template_referenced_only_witness :
  render_template test_config "About $subject."
  = render_template
      {| BASE_URL := "https://example.org";
         test_request_context := origin_request_context;
         IVM := {| twilio_account_sid := ""; twilio_auth_token := "";
                   use_ngrok := true; ngrok_auth_token := None;
                   to_number := ""; from_number := "";
                   machine_voice := "man"; human_voice := "woman";
                   variables := {[ "subject" := "Apple" ]} |} |}
      "About $subject.".
Proof.
  apply render_template_referenced_only.
  intros n Hn. vm_compute in Hn.
  apply list_elem_of_singleton in Hn as ->. reflexivity.
Defined.

(** X11.  A placeholder is replaced by the value of its name as it stands
    (the value is not rendered again), and rendering goes on after it: the
    braced form before any text, the plain form before text that does not
    continue the identifier.  A missing name is the missing-key error. *)
Theorem render_template_placeholder (cfg : AppConfig) (key t : string) :
  Template.identifier key = Some key ->
  render_template cfg ("${" +:+ key +:+ "}" +:+ t) =
    (v <- getitem (fun k => variables (IVM cfg) !! k) key ;;
     out <- render_template cfg t ;; Ok (v +:+ out))
  /\ (ends_identifier t = true ->
      render_template cfg ("$" +:+ key +:+ t) =
        (v <- getitem (fun k => variables (IVM cfg) !! k) key ;;
         out <- render_template cfg t ;; Ok (v +:+ out))).
Proof.
  intros Hid. split.
  - exact (sub_braced (fun k => variables (IVM cfg) !! k) key t Hid).
  - intros Ht. exact (sub_named (fun k => variables (IVM cfg) !! k) key t Hid Ht).
Qed.

Lemma render_template_placeholder_witness :
  Template.identifier "subject" = Some "subject"
  /\ render_template test_config ("${" +:+ "subject" +:+ "}" +:+ "s and $$") = Ok "Apples and $".
Proof.
  split; [reflexivity|].
  destruct (render_template_placeholder test_config "subject" "s and $$" eq_refl)
    as [H _].
  rewrite H. reflexivity.
Defined.

(** ** The messages and the variables they need *)

Section MessageVariables.

Variable mapping : string -> option string.

Lemma substitute_intro_from_missing :
  mapping "from_name" = None ->
  Template.substitute mapping
    "Hello, this is a voice message from $from_name about $subject."
  = Err (KeyError "from_name").
Proof.
  intros H. rewrite substitute_pieces. vm_compute. now rewrite H.
Qed.

Lemma substitute_intro_subject_missing (from_name : string) :
  mapping "from_name" = Some from_name ->
  mapping "subject" = None ->
  Template.substitute mapping
    "Hello, this is a voice message from $from_name about $subject."
  = Err (KeyError "subject").
Proof.
  intros H1 H2. rewrite substitute_pieces. vm_compute. now rewrite H1, H2.
Qed.

End MessageVariables.

Lemma intro_cases (cfg : AppConfig) :
  DynamicMessages.intro cfg =
    match variables (IVM cfg) !! "from_name" with
    | None => Err (KeyError "from_name")
    | Some from_name =>
        match variables (IVM cfg) !! "subject" with
        | None => Err (KeyError "subject")
        | Some subject =>
            Ok (spoken (machine_voice (IVM cfg)) (intro_text from_name subject))
        end
    end.
Proof.
  destruct (variables (IVM cfg) !! "from_name") as [from_name|] eqn:Hfrom.
  - destruct (variables (IVM cfg) !! "subject") as [subject|] eqn:Hsubject.
    + now apply intro_spec.
    + unfold DynamicMessages.intro, say_as_machine.
      rewrite say_single_string. unfold render_template.
      now rewrite (substitute_intro_subject_missing _ from_name).
  - unfold DynamicMessages.intro, say_as_machine.
    rewrite say_single_string. unfold render_template.
    now rewrite substitute_intro_from_missing.
Qed.

Lemma main_cases (cfg : AppConfig) :
  DynamicMessages.main cfg =
    match variables (IVM cfg) !! "main_message" with
    | Some main_message => Ok (spoken (human_voice (IVM cfg)) main_message)
    | None => Err (KeyError "main_message")
    end.
Proof.
  destruct (variables (IVM cfg) !! "main_message") eqn:H;
    [now apply main_spec | now apply main_missing].
Qed.

Lemma email_address_cases (cfg : AppConfig) :
  DynamicMessages.email_address cfg =
    match variables (IVM cfg) !! "email" with
    | Some email => Ok (email_prompt (human_voice (IVM cfg)) email)
    | None => Err (KeyError "email")
    end.
Proof.
  destruct (variables (IVM cfg) !! "email") eqn:H;
    [now apply email_address_spec | now apply email_address_missing].
Qed.

(** X12.  Each message needs exactly the variables its template names: the
    intro [from_name] and then [subject], the main message [main_message],
    the email prompt [email]; with them it is a [Say] in its voice (machine
    for the intro, human for the other two), without them the missing-key
    error of the first name that is absent.  The values are spoken as they
    are: the main message and the email address are not rendered again. *)
Theorem dynamic_messages_variables (cfg : AppConfig) :
  DynamicMessages.intro cfg =
    match variables (IVM cfg) !! "from_name" with
    | None => Err (KeyError "from_name")
    | Some from_name =>
        match variables (IVM cfg) !! "subject" with
        | None => Err (KeyError "subject")
        | Some subject =>
            Ok (spoken (machine_voice (IVM cfg)) (intro_text from_name subject))
        end
    end
  /\ DynamicMessages.main cfg =
       match variables (IVM cfg) !! "main_message" with
       | Some main_message => Ok (spoken (human_voice (IVM cfg)) main_message)
       | None => Err (KeyError "main_message")
       end
  /\ DynamicMessages.email_address cfg =
       match variables (IVM cfg) !! "email" with
       | Some email =>
           Ok (MkTwiML "Say" (<["voice" := AStr (human_voice (IVM cfg))]> ∅) None
                 [ inl "My email address is,";
                   inr (SsmlSayAs email {[ "interpret_as" := AStr "spell-out" ]}) ])
       | None => Err (KeyError "email")
       end.
Proof.
  split; [apply intro_cases|]. split; [apply main_cases | apply email_address_cases].
Qed.

(** ** The menu entries *)

Lemma prompt_voice_reply_spec (cfg : AppConfig) (response : TwiML) :
  CallbackActions.prompt_voice_reply cfg response
  = Ok (extend response (record_verbs cfg), NOOP).
Proof.
  unfold CallbackActions.prompt_voice_reply.
  rewrite say_as_machine_ordinary by reflexivity.
  rewrite say_single_string, render_template_plain by reflexivity.
  change (url_for ".handle_voice_reply_callback")
    with (@Ok string "/voice-reply-callback").
  change (url_for ".handle_transcribe_callback")
    with (@Ok string "/transcribe-callback").
  unfold record, append. now rewrite !nest_extend, extend_extend.
Qed.

Lemma run_say_message (cfg : AppConfig) (message : Message) (response : TwiML) :
  run_callback_action cfg (CallbackActions.say_message message) response =
    (m <- message cfg ;;
     address <- menu_callback_url cfg false ;;
     Ok (extend response
           ([ inr m; inr (Pause 1) ]
            ++ menu_verbs cfg address interactive_announcement))).
Proof.
  rewrite run_callback_action_spec. unfold CallbackActions.say_message.
  destruct (message cfg) as [m|e]; [|reflexivity].
  destruct (menu_callback_url cfg false) as [address|e]; [|reflexivity].
  unfold pause, append. now rewrite !nest_extend, !extend_extend.
Qed.

Lemma menu_key_1 (cfg : AppConfig) (request : Request) :
  dict_get (form request) "Digits" = Some "1" ->
  handle_menu_callback cfg request =
    match variables (IVM cfg) !! "main_message" with
    | Some main_message =>
        address <- menu_callback_url cfg false ;;
        Ok (message_then_menu cfg address
              (spoken (human_voice (IVM cfg)) main_message))
    | None => Err (KeyError "main_message")
    end.
Proof.
  intros H. rewrite (handle_menu_callback_spec cfg request "1" H).
  change (dict_get interactive_menu "1")
    with (Some {| prompt := "to play the message again";
                  callback_action := CallbackActions.say_message DynamicMessages.main |}).
  cbn [callback_action]. rewrite run_say_message, main_cases.
  destruct (variables (IVM cfg) !! "main_message"); [|reflexivity].
  now destruct (menu_callback_url cfg false).
Qed.

Lemma menu_key_2 (cfg : AppConfig) (request : Request) :
  dict_get (form request) "Digits" = Some "2" ->
  handle_menu_callback cfg request =
    match variables (IVM cfg) !! "email" with
    | Some email =>
        address <- menu_callback_url cfg false ;;
        Ok (message_then_menu cfg address
              (email_prompt (human_voice (IVM cfg)) email))
    | None => Err (KeyError "email")
    end.
Proof.
  intros H. rewrite (handle_menu_callback_spec cfg request "2" H).
  change (dict_get interactive_menu "2")
    with (Some {| prompt := "for the sender's email address";
                  callback_action :=
                    CallbackActions.say_message DynamicMessages.email_address |}).
  cbn [callback_action]. rewrite run_say_message, email_address_cases.
  destruct (variables (IVM cfg) !! "email"); [|reflexivity].
  now destruct (menu_callback_url cfg false).
Qed.

Lemma menu_key_3 (cfg : AppConfig) (request : Request) :
  dict_get (form request) "Digits" = Some "3" ->
  handle_menu_callback cfg request
  = Ok (RvResponse (render_twiml (extend VoiceResponse (record_verbs cfg)))).
Proof.
  intros H. rewrite (handle_menu_callback_spec cfg request "3" H).
  change (dict_get interactive_menu "3")
    with (Some {| prompt := "to record a voice message to be sent back";
                  callback_action := CallbackActions.prompt_voice_reply |}).
  cbn [callback_action].
  now rewrite run_callback_action_spec, prompt_voice_reply_spec.
Qed.

(** X13.  [prompt_voice_reply] needs no variable and cannot fail: it appends
    the recording prompt in the machine voice and a record instruction
    (posting to "/voice-reply-callback", with a beep, at most 120 seconds,
    transcription reported to "/transcribe-callback") and returns NOOP, so
    that [run_callback_action] adds neither the menu nor a hang-up. *)
Theorem prompt_voice_reply_record (cfg : AppConfig) (response : TwiML) :
  CallbackActions.prompt_voice_reply cfg response
  = Ok (extend response (record_verbs cfg), NOOP)
  /\ run_callback_action cfg CallbackActions.prompt_voice_reply response
     = Ok (extend response (record_verbs cfg)).
Proof.
  split; [apply prompt_voice_reply_spec|].
  now rewrite run_callback_action_spec, prompt_voice_reply_spec.
Qed.

(** X14.  Key 1 replays the main message: with [main_message] defined the
    reply is the message in the human voice, a pause of one second and the
    menu again, the gather posting to the internal address that [url_for]
    gives for the menu callback; without it the request fails with the
    missing-key error, before any address is asked for.  No other variable
    is looked at. *)
Theorem menu_callback_key_1 (cfg : AppConfig) (request : Request) :
  dict_get (form request) "Digits" = Some "1" ->
  handle_menu_callback cfg request =
    match variables (IVM cfg) !! "main_message" with
    | Some main_message =>
        address <- test_request_context cfg (BASE_URL cfg)
                     "voice_message.handle_menu_callback" false ;;
        Ok (message_then_menu cfg address
              (spoken (human_voice (IVM cfg)) main_message))
    | None => Err (KeyError "main_message")
    end.
Proof. apply menu_key_1. Qed.

Lemma menu_callback_key_1_witness :
  dict_get (form {| form := [("Digits", "1"); ("Digits", "9")]; data := "" |}) "Digits"
  = Some "1"
  /\ handle_menu_callback test_config
       {| form := [("Digits", "1"); ("Digits", "9")]; data := "" |}
     = Ok (message_then_menu test_config "/menu-callback"
             (spoken "Polly.Salli-Neural" "Apples are red")).
Proof.
  split; [reflexivity|].
  apply (menu_callback_key_1 test_config
           {| form := [("Digits", "1"); ("Digits", "9")]; data := "" |} eq_refl).
Defined.

(** X15.  Key 2 speaks the email address: with [email] defined the reply is
    the email prompt in the human voice with the address in a spell-out tag,
    a pause of one second and the menu again, the gather posting to the
    internal address that [url_for] gives for the menu callback; without it
    the request fails with the missing-key error. *)
Theorem menu_callback_key_2 (cfg : AppConfig) (request : Request) :
  dict_get (form request) "Digits" = Some "2" ->
  handle_menu_callback cfg request =
    match variables (IVM cfg) !! "email" with
    | Some email =>
        address <- test_request_context cfg (BASE_URL cfg)
                     "voice_message.handle_menu_callback" false ;;
        Ok (message_then_menu cfg address
              (email_prompt (human_voice (IVM cfg)) email))
    | None => Err (KeyError "email")
    end.
Proof. apply menu_key_2. Qed.

Lemma menu_callback_key_2_witness :
  dict_get (form {| form := [("Digits", "2")]; data := "" |}) "Digits" = Some "2"
  /\ handle_menu_callback test_config {| form := [("Digits", "2")]; data := "" |}
     = Ok (message_then_menu test_config "/menu-callback"
             (email_prompt "Polly.Salli-Neural" "test@example.com")).
Proof.
  split; [reflexivity|].
  apply (menu_callback_key_2 test_config
           {| form := [("Digits", "2")]; data := "" |} eq_refl).
Defined.

(** X16.  Key 3 succeeds under every configuration: the reply is the
    recording prompt and the record instruction and nothing else, no menu
    and no hang-up. *)
Theorem menu_callback_key_3 (cfg : AppConfig) (request : Request) :
  dict_get (form request) "Digits" = Some "3" ->
  handle_menu_callback cfg request
  = Ok (RvResponse (render_twiml (extend VoiceResponse (record_verbs cfg))))
  /\ http_status (handle_menu_callback cfg request) = 200%Z.
Proof.
  intros H. rewrite (menu_key_3 cfg request H). now split.
Qed.

Lemma menu_callback_key_3_witness :
  dict_get (form {| form := [("Digits", "3")]; data := "" |}) "Digits" = Some "3"
  /\ http_status
       (handle_menu_callback test_config {| form := [("Digits", "3")]; data := "" |})
     = 200%Z.
Proof.
  split; [reflexivity|].
  apply (menu_callback_key_3 test_config
           {| form := [("Digits", "3")]; data := "" |} eq_refl).
Defined.

(** X17.  The status of a menu callback: 400 when the form has no Digits;
    500 when the key is 1 and [main_message] is not defined, or the key is 2
    and [email] is not defined; 200 when the key is 3; in every other case
    the menu is announced again and the status is 200 once the address of
    the menu callback is built (an exception raised while it is built is
    the only other outcome). *)
Theorem handle_menu_callback_status (cfg : AppConfig) (request : Request) :
  http_status (handle_menu_callback cfg request) =
    let announced :=
      match test_request_context cfg (BASE_URL cfg)
              "voice_message.handle_menu_callback" false with
      | Ok _ => 200%Z
      | Err e => http_status (Err e)
      end in
    match dict_get (form request) "Digits" with
    | None => 400%Z
    | Some digits =>
        if String.eqb digits "1" then
          match variables (IVM cfg) !! "main_message" with
          | Some _ => announced
          | None => 500%Z
          end
        else if String.eqb digits "2" then
          match variables (IVM cfg) !! "email" with
          | Some _ => announced
          | None => 500%Z
          end
        else if String.eqb digits "3" then 200%Z
        else announced
    end.
Proof.
  cbv zeta.
  destruct (dict_get (form request) "Digits") as [digits|] eqn:H.
  - destruct (String.eqb_spec digits "1") as [->|H1].
    { rewrite (menu_key_1 cfg request H). unfold menu_callback_url.
      destruct (variables (IVM cfg) !! "main_message"); [|reflexivity].
      now destruct (test_request_context cfg _ _ _). }
    destruct (String.eqb_spec digits "2") as [->|H2].
    { rewrite (menu_key_2 cfg request H). unfold menu_callback_url.
      destruct (variables (IVM cfg) !! "email"); [|reflexivity].
      now destruct (test_request_context cfg _ _ _). }
    destruct (String.eqb_spec digits "3") as [->|H3].
    { now rewrite (menu_key_3 cfg request H). }
    rewrite (handle_menu_callback_spec cfg request digits H).
    rewrite (proj2 (interactive_menu_unmapped digits)) by easy.
    unfold menu_callback_url.
    now destruct (test_request_context cfg _ _ _).
  - unfold handle_menu_callback, form_getitem. now rewrite H.
Qed.

(** ** Menus without template syntax *)

(** X18.  A menu whose keys and prompts contain no delimiter is announced
    under every set of variables: once the address of the callback is built
    [say_menu] cannot fail, and the text spoken is the options followed by
    the three closing sentences, word for word.  The empty menu is such a
    menu; its announcement is the closing sentences alone. *)
Theorem say_menu_plain (cfg : AppConfig) (menu : list (string * MenuItem))
    (response : TwiML) (external : bool) :
  plain_menu menu = true ->
  CompositeActions.say_menu cfg menu response external =
    (address <- test_request_context cfg (BASE_URL cfg)
                  "voice_message.handle_menu_callback" external ;;
     Ok (extend response (menu_verbs cfg address (announcement_template menu))))
  /\ CompositeActions.say_menu cfg [] response external =
       (address <- test_request_context cfg (BASE_URL cfg)
                     "voice_message.handle_menu_callback" external ;;
        Ok (extend response
              (menu_verbs cfg address
                 "Press any other key to repeat the options. Or, please feel free to hang up now. I will wait for 2 minutes before ending the call."))).
Proof.
  intros H. split.
  - rewrite say_menu_spec, render_template_plain
      by now rewrite announcement_template_plain.
    reflexivity.
  - rewrite say_menu_spec, render_template_plain by reflexivity.
    reflexivity.
Qed.

Lemma say_menu_plain_witness :
  plain_menu interactive_menu = true
  /\ CompositeActions.say_menu test_config interactive_menu VoiceResponse true
     = Ok (extend VoiceResponse
             (menu_verbs test_config "http://localhost:5000/menu-callback"
                (announcement_template interactive_menu))).
Proof.
  split; [reflexivity|].
  apply (say_menu_plain test_config interactive_menu VoiceResponse true eq_refl).
Defined.

(** ** The outcomes of [start_call] *)

(** X19.  [start_call] fails in this order: an error of the client class
    comes first, whatever the variables are; then the missing-key error of
    the first variable that is not defined, in the order [from_name],
    [subject], [main_message], [email]; then an exception raised while the
    external address of the menu callback is built; all of these without
    the provider being asked; then the error of the provider, passed on as
    it is.  Otherwise the reply names the call and shows the script. *)
Theorem start_call_outcomes (cfg : AppConfig)
    (Client : string -> string -> result TwilioClient) :
  start_call cfg Client =
    match Client (twilio_account_sid (IVM cfg)) (twilio_auth_token (IVM cfg)) with
    | Err e => Err e
    | Ok client =>
      match variables (IVM cfg) !! "from_name" with
      | None => Err (KeyError "from_name")
      | Some from_name =>
        match variables (IVM cfg) !! "subject" with
        | None => Err (KeyError "subject")
        | Some subject =>
          match variables (IVM cfg) !! "main_message" with
          | None => Err (KeyError "main_message")
          | Some main_message =>
            match variables (IVM cfg) !! "email" with
            | None => Err (KeyError "email")
            | Some email =>
              match test_request_context cfg (BASE_URL cfg)
                      "voice_message.handle_menu_callback" true with
              | Err e => Err e
              | Ok address =>
                match calls_create client
                        (call_script cfg address from_name subject main_message email)
                        (to_number (IVM cfg)) (from_number (IVM cfg)) with
                | Err e => Err e
                | Ok sid =>
                    Ok (RvStr (Cat (Lit ("Initiated call with SID " +:+ sid
                                         +:+ " with the following VoiceResponse:"
                                         +:+ newline))
                                   (Str (call_script cfg address from_name subject
                                           main_message email))))
                end
              end
            end
          end
        end
      end
    end.
Proof.
  destruct (Client _ _) as [client|e] eqn:Hclient;
    [|unfold start_call, create_twilio_client; now rewrite Hclient].
  destruct (variables (IVM cfg) !! "from_name") as [from_name|] eqn:Hfrom;
    [|unfold start_call, create_twilio_client;
      now rewrite Hclient, intro_cases, Hfrom].
  destruct (variables (IVM cfg) !! "subject") as [subject|] eqn:Hsubject;
    [|unfold start_call, create_twilio_client;
      now rewrite Hclient, intro_cases, Hfrom, Hsubject].
  destruct (variables (IVM cfg) !! "main_message") as [main_message|] eqn:Hmain;
    [|unfold start_call, create_twilio_client;
      now rewrite Hclient, intro_cases, Hfrom, Hsubject, main_cases, Hmain].
  destruct (variables (IVM cfg) !! "email") as [email|] eqn:Hemail;
    [|unfold start_call, create_twilio_client;
      now rewrite Hclient, intro_cases, Hfrom, Hsubject, main_cases, Hmain,
        email_address_cases, Hemail].
  now rewrite (start_call_spec cfg Client client from_name subject main_message email).
Qed.

(** ** The tunnel for local development *)

Lemma after_first_index (argv : list string) (x : string) :
  match after_first argv x with
  | None => list_contains argv x = false
  | Some rest =>
      list_contains argv x = true
      /\ exists i, list_index argv x = Some i /\ argv !! (i + 1) = head rest
  end.
Proof.
  induction argv as [|y argv IH]; [reflexivity|].
  cbn [after_first list_contains list_index].
  destruct (String.eqb y x); simpl.
  - split; [reflexivity|]. exists 0. split; [reflexivity|]. now destruct argv.
  - destruct (after_first argv x) as [rest|].
    + destruct IH as [Hin (i & Hi & Hnext)]. split; [assumption|].
      exists (S i). rewrite Hi. split; [reflexivity | exact Hnext].
    + exact IH.
Qed.

Lemma dev_server_port_spec (argv : list string) :
  dev_server_port argv =
    match after_first argv "--port" with
    | None => Started (PortNumber 5000)
    | Some [] => Crashed IndexError
    | Some (port :: _) => Started (PortArgument port)
    end.
Proof.
  unfold dev_server_port.
  pose proof (after_first_index argv "--port") as H.
  destruct (after_first argv "--port") as [rest|].
  - destruct H as [-> (i & -> & ->)]. now destruct rest.
  - now rewrite H.
Qed.

(** X20.  The port for the tunnel is read from the command line: without
    "--port" it is the number 5000; otherwise it is the argument that
    follows the first "--port", as a string; and when the first "--port" is
    the last argument the lookup is out of range.  The search itself never
    fails. *)
Theorem dev_server_port_cases (argv : list string) :
  dev_server_port argv =
    match after_first argv "--port" with
    | None => Started (PortNumber 5000)
    | Some [] => Crashed IndexError
    | Some (port :: _) => Started (PortArgument port)
    end
  /\ dev_server_port argv <> Crashed NotInList
  /\ (forall before port rest,
        list_contains before "--port" = false ->
        dev_server_port (before ++ "--port" :: port :: rest)
        = Started (PortArgument port)).
Proof.
  split; [apply dev_server_port_spec|]. split.
  - rewrite dev_server_port_spec.
    destruct (after_first argv "--port") as [[|port rest]|]; discriminate.
  - intros before port rest H. rewrite dev_server_port_spec.
    induction before as [|y before IH]; [reflexivity|].
    cbn [list_contains] in H. apply orb_false_iff in H as [Hy Hrest].
    cbn [app after_first]. rewrite Hy. now apply IH.
Qed.

(** X21.  A command line that ends with its first "--port" stops the
    application at start-up when the tunnel is enabled, with the index
    error and before ngrok is contacted; with the tunnel disabled the
    command line is not read and the configuration is returned as it is. *)
Theorem open_ngrok_tunnel_port_missing (argv : list string)
    (ngrok_connect : option string -> Port -> startup string) (config : FlaskConfig) :
  after_first argv "--port" = Some [] ->
  open_ngrok_tunnel argv ngrok_connect config =
    if use_ngrok (IVM (app_config config)) then Crashed IndexError else Started config.
Proof.
  intros H. unfold open_ngrok_tunnel.
  now rewrite dev_server_port_spec, H.
Qed.

Lemma open_ngrok_tunnel_port_missing_witness :
  after_first ["app.py"; "--config"; "dev.toml"; "--port"] "--port" = Some []
  /\ open_ngrok_tunnel ["app.py"; "--config"; "dev.toml"; "--port"]
       (fun _ _ => Started "https://tunnel.example") tunnel_config
     = Crashed IndexError.
Proof.
  split; [reflexivity|].
  exact (open_ngrok_tunnel_port_missing
           ["app.py"; "--config"; "dev.toml"; "--port"]
           (fun _ _ => Started "https://tunnel.example") tunnel_config eq_refl).
Defined.
